(** * Task Tracker CLI (task-cli.js): a shallow embedding and its properties

    The program is a one-shot command line tool: every invocation reads
    [tasks.json], runs one command and possibly overwrites the file.  The
    embedding follows [src/task-tracker-cli-js/task-cli.js] function by
    function:

    - the backing file and the outcome of [fs.writeFileSync] form the
      [world] of one invocation; a command is a function from the world to a
      new world and the lines it printed (module [Run], a state-and-output
      monad); a failed write leaves the file as it was;
    - JavaScript values read from the file are [json] values; the commands
      use the loaded value as an array of task objects, which is the view
      [as_tasks]; on any other value the dynamic behaviour of the script is
      not modelled and the command yields [None];
    - JavaScript numbers are modelled as integers ([Z]) and their arithmetic
      as exact; the script computes with doubles, which agree with this on
      the safe integers (up to [JS.MAX_SAFE_INTEGER], 2^53 - 1), so the
      statements that depend on the value [parseInt] reads or [getNextId]
      computes are stated for ids in that range;
    - strings are [string]s holding UTF-8 text; [parseInt] skips every
      ECMAScript white space character in its UTF-8 form; [toLowerCase] maps
      the ASCII letters, which decides every comparison the script makes
      with it;
    - [new Date().toISOString()] is the argument [now] of a command. *)

From Stdlib Require Import ZArith Ascii String Lia.
From stdpp Require Import base list strings sorting.

Set Warnings "-register-all".

Open Scope string_scope.
Open Scope list_scope.
Open Scope Z_scope.

(** ** JavaScript primitives used by the script *)

Module JS.

(** An argument taken from [process.argv] is a string or [undefined]. *)
Definition arg := option string.

(** [!x] for a string or [undefined]: only [undefined] and the empty
    string are falsy. *)
Definition truthy (x : arg) : bool :=
  match x with
  | Some (String _ _) => true
  | Some EmptyString => false
  | None => false
  end.

(** [ToString] of a string or [undefined]. *)
Definition ToString (x : arg) : string :=
  match x with
  | Some s => s
  | None => "undefined"
  end.

(** [x || d], used as a string. *)
Definition or_default (x : arg) (d : string) : string :=
  if truthy x then ToString x else d.

Definition code (c : ascii) : Z := Z.of_N (N_of_ascii c).

Definition lower_char (c : ascii) : ascii :=
  if (65 <=? code c) && (code c <=? 90)
  then ascii_of_N (N_of_ascii c + 32)
  else c.

(** [String.prototype.toLowerCase] *)
Fixpoint toLowerCase (s : string) : string :=
  match s with
  | EmptyString => EmptyString
  | String c s' => String (lower_char c) (toLowerCase s')
  end.

(** [Number.MAX_SAFE_INTEGER], 2^53 - 1: up to it every integer is a double
    and adding 1 is exact. *)
Definition MAX_SAFE_INTEGER : Z := 9007199254740991.

(** White space of one byte skipped by [parseInt]: TAB, LF, VT, FF, CR, SP. *)
Definition StrWhiteSpaceChar (c : ascii) : bool :=
  ((9 <=? code c) && (code c <=? 13)) || (code c =? 32).

(** White space of three bytes: U+1680, U+2000 to U+200A, U+2028, U+2029,
    U+202F, U+205F, U+3000 and U+FEFF, in UTF-8. *)
Definition StrWhiteSpaceChar3 (c1 c2 c3 : ascii) : bool :=
  ((code c1 =? 225) && (code c2 =? 154) && (code c3 =? 128))
  || ((code c1 =? 226) && (code c2 =? 128)
      && (((128 <=? code c3) && (code c3 <=? 138))
          || (code c3 =? 168) || (code c3 =? 169) || (code c3 =? 175)))
  || ((code c1 =? 226) && (code c2 =? 129) && (code c3 =? 159))
  || ((code c1 =? 227) && (code c2 =? 128) && (code c3 =? 128))
  || ((code c1 =? 239) && (code c2 =? 187) && (code c3 =? 191)).

(** Removes the leading white space ([StrWhiteSpaceChar] of ECMAScript:
    WhiteSpace and LineTerminator).  U+00A0 is the bytes 194, 160. *)
Fixpoint TrimStart (s : string) : string :=
  match s with
  | EmptyString => EmptyString
  | String c1 s1 =>
      if StrWhiteSpaceChar c1 then TrimStart s1
      else if code c1 =? 194 then
        match s1 with
        | String c2 s2 => if code c2 =? 160 then TrimStart s2 else s
        | EmptyString => s
        end
      else if (225 <=? code c1) && (code c1 <=? 239) then
        match s1 with
        | String c2 (String c3 s3) =>
            if StrWhiteSpaceChar3 c1 c2 c3 then TrimStart s3 else s
        | _ => s
        end
      else s
  end.

(** The value of a character as a digit, in radix 36. *)
Definition digit_value (c : ascii) : option Z :=
  if (48 <=? code c) && (code c <=? 57) then Some (code c - 48)
  else if (97 <=? code c) && (code c <=? 122) then Some (code c - 87)
  else if (65 <=? code c) && (code c <=? 90) then Some (code c - 55)
  else None.

(** The longest prefix of [s] made of digits of radix [R]. *)
Fixpoint radix_digits (R : Z) (s : string) : list Z :=
  match s with
  | String c s' =>
      match digit_value c with
      | Some d => if d <? R then d :: radix_digits R s' else []
      | None => []
      end
  | EmptyString => []
  end.

(** The integer the digits denote.  [parseInt] returns it as a double:
    the same number when it is a safe integer. *)
Definition mathInt (R : Z) (ds : list Z) : Z :=
  fold_left (fun acc d => acc * R + d) ds 0.

(** [parseInt(x)] with no radix argument; [None] is [NaN].  The number read
    is the exact value of the digits, which is what the script gets for
    every safe integer. *)
Definition parseInt (x : arg) : option Z :=
  let inputString := ToString x in
  let s := TrimStart inputString in
  let sign := match s with String "-"%char _ => -1 | _ => 1 end in
  let s := match s with
           | String "+"%char r => r
           | String "-"%char r => r
           | _ => s
           end in
  let '(R, s) := match s with
                 | String "0"%char (String "x"%char r) => (16, r)
                 | String "0"%char (String "X"%char r) => (16, r)
                 | _ => (10, s)
                 end in
  let ds := radix_digits R s in
  match ds with
  | [] => None
  | _ :: _ => Some (sign * mathInt R ds)
  end.

End JS.

(** ** Data model *)

(** Values produced by [JSON.parse]. *)
Inductive json : Type :=
| JNull
| JBool (b : bool)
| JNum (n : Z)
| JStr (s : string)
| JArr (items : list json)
| JObj (fields : list (string * json)).

(** A task object, with the five properties [addTask] gives it. *)
Record Task : Type := mkTask {
  id : Z;
  description : string;
  status : string;
  createdAt : string;
  updatedAt : string
}.

#[global] Instance Task_eq_dec : EqDecision Task.
Proof. solve_decision. Defined.

Definition of_task (t : Task) : json :=
  JObj [("id", JNum (id t));
        ("description", JStr (description t));
        ("status", JStr (status t));
        ("createdAt", JStr (createdAt t));
        ("updatedAt", JStr (updatedAt t))].

Definition of_tasks (ts : list Task) : json := JArr (of_task <$> ts).

(** The view of a loaded value as a task object: exactly the five
    properties, in the order in which the script writes them. *)
Definition as_task (v : json) : option Task :=
  match v with
  | JObj [(k1, JNum i); (k2, JStr d); (k3, JStr s); (k4, JStr c); (k5, JStr u)] =>
      if bool_decide (k1 = "id" ∧ k2 = "description" ∧ k3 = "status"
                      ∧ k4 = "createdAt" ∧ k5 = "updatedAt")
      then Some (mkTask i d s c u)
      else None
  | _ => None
  end.

Definition as_tasks (v : json) : option (list Task) :=
  match v with
  | JArr items => mapM as_task items
  | _ => None
  end.

(** An exception caught by the script: [e.code] and [e.message]. *)
Record exn : Type := mkExn {
  exn_code : option string;
  exn_message : string
}.

(** The state of [tasks.json] as the script observes it. *)
Inductive file_state : Type :=
| Absent                      (* [fs.existsSync] is false *)
| ZeroLength                  (* the file exists and its size is 0 *)
| Unreadable (e : exn)        (* [fs.readFileSync] throws [e] *)
| Malformed (msg : string)    (* [JSON.parse] throws a SyntaxError *)
| Json (v : json).            (* [JSON.parse] returns [v] *)

(** The environment of one invocation: the backing file, and whether
    [fs.writeFileSync] would throw (with which message). *)
Record world : Type := mkWorld {
  file : file_state;
  write_error : option string
}.

(** What the script prints. *)
Inductive message : Type :=
| CorruptFile (msg : string)         (* "Error al leer o parsear tasks.json. Archivo corrupto..." *)
| SaveFailed (msg : string)          (* "Error al guardar las tareas en tasks.json:" *)
| DescriptionRequired                (* "Se requiere una descripción para agregar una tarea." *)
| Added (newId : Z)                  (* "Tarea agregada exitosamente (ID: ...)" *)
| NoTasks                            (* "No hay tareas registradas." *)
| InvalidFilter (filter : string)    (* "Estado de filtro inválido ..." *)
| NoTasksWithStatus (filter : string)(* "No hay tareas con estado '...'" *)
| ListHeader                         (* "--- Lista de Tareas ---" *)
| TaskRow (t : Task)                 (* one line per displayed task *)
| ListFooter                         (* "-----------------------" *)
| UpdateUsage                        (* "Uso incorrecto. Uso: task-cli update ID ..." *)
| DeleteUsage                        (* "Uso incorrecto. Uso: task-cli delete ID" *)
| TaskNotFound (taskId : Z)          (* "No se encontró la tarea con ID ..." *)
| Updated (taskId : Z)               (* "Tarea ID ... actualizada exitosamente." *)
| Deleted (taskId : Z)               (* "Tarea ID ... eliminada exitosamente." *)
| InDevelopment (command : string)   (* "Comando ... en desarrollo..." *)
| UnknownCommand (command : string)  (* "Comando desconocido ..." *)
| Help.                              (* the usage text of [showHelp] *)

(** A printed line and the stream it went to. *)
Inductive output : Type :=
| Log (m : message)      (* [console.log] *)
| Error (m : message).   (* [console.error] *)

(** ** One invocation of the script: world in, world and printed lines out *)

Module Run.

(** [None]: the loaded value is not an array of task objects, where the
    behaviour of the script is not modelled. *)
Definition M (A : Type) : Type := world -> option (A * world * list output).

Definition ret {A : Type} (a : A) : M A := fun w => Some (a, w, []).

Definition bind {A B : Type} (m : M A) (k : A -> M B) : M B :=
  fun w =>
    match m w with
    | None => None
    | Some (a, w1, out1) =>
        match k a w1 with
        | None => None
        | Some (b, w2, out2) => Some (b, w2, out1 ++ out2)
        end
    end.

Definition console_log (m : message) : M unit :=
  fun w => Some (tt, w, [Log m]).

Definition console_error (m : message) : M unit :=
  fun w => Some (tt, w, [Error m]).

Definition observe_file : M file_state := fun w => Some (file w, w, []).

(** Uses a loaded value as an array of task objects. *)
Definition expect_tasks (v : json) : M (list Task) :=
  fun w =>
    match as_tasks v with
    | Some tasks => Some (tasks, w, [])
    | None => None
    end.

(** The world after the command, if the command is modelled. *)
Definition world_after {A : Type} (m : M A) (w : world) : option world :=
  match m w with
  | Some (_, w', _) => Some w'
  | None => None
  end.

End Run.

Import Run.

#[global] Instance M_ret : MRet M := @ret.
#[global] Instance M_bind : MBind M := fun A B k m => bind m k.

(** [l.forEach(f)] *)
Fixpoint forEach {A : Type} (l : list A) (f : A -> M unit) : M unit :=
  match l with
  | [] => mret tt
  | x :: l' => f x;; forEach l' f
  end.

(** ** The store: [loadTasks] and [saveTasks] *)

(** The body of the [try] block of [loadTasks]: the value returned, or the
    exception thrown. *)
Definition loadTasks_try (f : file_state) : exn + json :=
  match f with
  | Absent => inr (JArr [])
  | ZeroLength => inr (JArr [])
  | Unreadable e => inl e
  | Malformed msg => inl (mkExn None msg)
  | Json v => inr v
  end.

Definition loadTasks : M json :=
  f ← observe_file;
  match loadTasks_try f with
  | inr v => mret v
  | inl e =>
      if bool_decide (exn_code e = Some "ENOENT")
      then mret (JArr [])
      else console_error (CorruptFile (exn_message e));; mret (JArr [])
  end.

(** [JSON.stringify] followed by [fs.writeFileSync]: when the write succeeds
    the file holds text that [JSON.parse] reads back as the same array; when
    it throws, the file is as before and the error is printed. *)
Definition saveTasks (tasks : list Task) : M unit :=
  fun w =>
    match write_error w with
    | None => Some (tt, mkWorld (Json (of_tasks tasks)) (write_error w), [])
    | Some msg => Some (tt, w, [Error (SaveFailed msg)])
    end.

(** ** Operations *)

(** [maxId + 1] is exact in the script while [maxId] is at most
    [JS.MAX_SAFE_INTEGER]. *)
Definition getNextId (tasks : list Task) : Z :=
  if (length tasks =? 0)%nat then 1
  else
    let maxId := fold_left (fun max task => Z.max max (id task)) tasks 0 in
    maxId + 1.

Definition addTask (description : JS.arg) (now : string) : M unit :=
  if negb (JS.truthy description)
  then console_error DescriptionRequired
  else
    let description := JS.ToString description in
    tasks ← loadTasks;
    tasks ← expect_tasks tasks;
    let newId := getNextId tasks in
    let newTask := {| id := newId;
                      description := description;
                      status := "todo";
                      createdAt := now;
                      updatedAt := now |} in
    let tasks := tasks ++ [newTask] in
    saveTasks tasks;;
    console_log (Added newId).

Definition validStatuses : list string := ["todo"; "in-progress"; "done"].

(** The second part of [listTasks]: the header, one row per task, the
    footer. *)
Definition print_tasks (tasksToDisplay : list Task) : M unit :=
  console_log ListHeader;;
  forEach tasksToDisplay (fun t => console_log (TaskRow t));;
  console_log ListFooter.

Definition listTasks (statusFilter : JS.arg) : M unit :=
  tasks ← loadTasks;
  tasks ← expect_tasks tasks;
  if (length tasks =? 0)%nat then console_log NoTasks
  else
    let filter_ := JS.toLowerCase (JS.or_default statusFilter "all") in
    if bool_decide (filter_ ≠ "all") then
      if negb (bool_decide (filter_ ∈ validStatuses))
      then console_error (InvalidFilter filter_)
      else
        let tasksToDisplay := filter (fun t => status t = filter_) tasks in
        if (length tasksToDisplay =? 0)%nat
        then console_log (NoTasksWithStatus filter_)
        else print_tasks tasksToDisplay
    else print_tasks tasks.

(** [tasks.findIndex(p)]; [None] is -1. *)
Definition findIndex {A : Type} (P : A -> Prop) `{forall x, Decision (P x)}
    (l : list A) : option nat :=
  fst <$> list_find P l.

Definition set_description (d : string) (t : Task) : Task :=
  {| id := id t; description := d; status := status t;
     createdAt := createdAt t; updatedAt := updatedAt t |}.

Definition set_updatedAt (u : string) (t : Task) : Task :=
  {| id := id t; description := description t; status := status t;
     createdAt := createdAt t; updatedAt := u |}.

Definition updateTask (id_ newDescription : JS.arg) (now : string) : M unit :=
  tasks ← loadTasks;
  tasks ← expect_tasks tasks;
  match JS.parseInt id_ with
  | None => console_error UpdateUsage
  | Some taskId =>
      if negb (JS.truthy newDescription)
      then console_error UpdateUsage
      else
        let newDescription := JS.ToString newDescription in
        match findIndex (fun t => id t = taskId) tasks with
        | None => console_error (TaskNotFound taskId)
        | Some taskIndex =>
            let tasks := alter (set_description newDescription) taskIndex tasks in
            let tasks := alter (set_updatedAt now) taskIndex tasks in
            saveTasks tasks;;
            console_log (Updated taskId)
        end
  end.

Definition deleteTask (id_ : JS.arg) : M unit :=
  tasks ← loadTasks;
  tasks ← expect_tasks tasks;
  match JS.parseInt id_ with
  | None => console_error DeleteUsage
  | Some taskId =>
      let initialLength := length tasks in
      let updatedTasks := filter (fun t => id t ≠ taskId) tasks in
      if (length updatedTasks =? initialLength)%nat
      then console_error (TaskNotFound taskId)
      else
        saveTasks updatedTasks;;
        console_log (Deleted taskId)
  end.

Definition showHelp : M unit := console_log Help.

Definition main (COMMAND : JS.arg) (ARGS : list string) (now : string) : M unit :=
  if negb (JS.truthy COMMAND)
  then showHelp
  else
    let COMMAND := JS.ToString COMMAND in
    if bool_decide (COMMAND = "add") then addTask (ARGS !! 0%nat) now
    else if bool_decide (COMMAND = "list") then listTasks (ARGS !! 0%nat)
    else if bool_decide (COMMAND = "update")
    then updateTask (ARGS !! 0%nat) (ARGS !! 1%nat) now
    else if bool_decide (COMMAND = "delete") then deleteTask (ARGS !! 0%nat)
    else if bool_decide (COMMAND = "mark-in-progress")
            || bool_decide (COMMAND = "mark-done")
    then console_log (InDevelopment COMMAND)
    else console_error (UnknownCommand COMMAND);; showHelp.

(** ** Runs: a sequence of invocations *)

(** One invocation: the command line, the time of the call, and whether
    writing the file fails during it. *)
Record invocation : Type := mkInvocation {
  inv_command : JS.arg;
  inv_args : list string;
  inv_now : string;
  inv_write_error : option string
}.

(** Runs the invocations in order, each on the file the previous one left;
    yields the final world and everything printed, in order. *)
Fixpoint run (invs : list invocation) (w : world) : option (world * list output) :=
  match invs with
  | [] => Some (w, [])
  | i :: invs' =>
      match main (inv_command i) (inv_args i) (inv_now i)
                 (mkWorld (file w) (inv_write_error i)) with
      | None => None
      | Some (_, w1, out1) =>
          match run invs' w1 with
          | None => None
          | Some (w2, out2) => Some (w2, out1 ++ out2)
          end
      end
  end.

(** ** Vocabulary of the statements *)

(** The collection an invocation starting in [w] works on: what
    [loadTasks] returns, used as an array of tasks. *)
Definition stored_tasks (w : world) : option (list Task) :=
  match loadTasks w with
  | Some (v, _, _) => as_tasks v
  | None => None
  end.

(** What [loadTasks] prints in [w]. *)
Definition load_output (w : world) : list output :=
  match loadTasks w with
  | Some (_, _, out) => out
  | None => []
  end.

(** The tasks shown by a listing: the rows printed, in order. *)
Definition displayed (out : list output) : list Task :=
  omap (fun o => match o with Log (TaskRow t) => Some t | _ => None end) out.

(** The ids handed out to new tasks, as reported by [addTask], in order. *)
Definition assigned_ids (out : list output) : list Z :=
  omap (fun o => match o with Log (Added i) => Some i | _ => None end) out.

Definition ids (tasks : list Task) : list Z := id <$> tasks.

(** [Number.isSafeInteger]: the integers on which the doubles of the script
    and the integers of this development agree. *)
Definition safe_integer (n : Z) : Prop :=
  - JS.MAX_SAFE_INTEGER <= n <= JS.MAX_SAFE_INTEGER.

(** The lines of a listing of [ts]. *)
Definition rows (ts : list Task) : list output :=
  (fun t => Log (TaskRow t)) <$> ts.

Definition listing (ts : list Task) : list output :=
  [Log ListHeader] ++ rows ts ++ [Log ListFooter].

(** [m] is the largest id held by a task of the collection. *)
Definition is_max_id (m : Z) (ts : list Task) : Prop :=
  m ∈ ids ts /\ Forall (fun i => i <= m) (ids ts).

(** The id the data model gives to a new task: 1 in an empty collection,
    otherwise the largest existing id plus 1. *)
Definition next_id (n : Z) (ts : list Task) : Prop :=
  (ts = [] /\ n = 1) \/ (exists m, is_max_id m ts /\ n = m + 1).

(** The [reduce] of [getNextId], from any starting value. *)
Definition max_from (a : Z) (ts : list Task) : Z :=
  fold_left (fun max task => Z.max max (id task)) ts a.

(** One [add] invocation whose write succeeds: the description and the time
    of the call. *)
Definition add_invocation (d : string * string) : invocation :=
  mkInvocation (Some "add") [d.1] d.2 None.

(** The tasks created for [ds], numbered from [n]. *)
Definition new_tasks (n : Z) (ds : list (string * string)) : list Task :=
  imap (fun k d => mkTask (n + Z.of_nat k) d.1 "todo" d.2 d.2) ds.

(** Ids are pairwise distinct and positive. *)
Definition well_formed (ts : list Task) : Prop :=
  NoDup (ids ts) /\ Forall (fun i => 1 <= i) (ids ts).

(** A command that, started on a well-formed stored collection, returns and
    leaves a well-formed stored collection. *)
Definition keeps (m : M unit) : Prop :=
  forall w ts,
    stored_tasks w = Some ts -> well_formed ts ->
    exists w' out ts',
      m w = Some (tt, w', out) /\ stored_tasks w' = Some ts' /\ well_formed ts'.

Definition is_decimal_digit (c : ascii) : bool :=
  (48 <=? JS.code c) && (JS.code c <=? 57).

Fixpoint all_decimal_digits (s : string) : bool :=
  match s with
  | EmptyString => true
  | String c s' => is_decimal_digit c && all_decimal_digits s'
  end.

Fixpoint decimal_value (acc : Z) (s : string) : Z :=
  match s with
  | EmptyString => acc
  | String c s' => decimal_value (acc * 10 + (JS.code c - 48)) s'
  end.

(** An id argument that is a valid positive integer: a non-empty string of
    decimal digits whose value is positive.  [Some n] gives that value. *)
Definition positive_integer (x : JS.arg) : option Z :=
  match x with
  | Some (String c s) =>
      if all_decimal_digits (String c s) && (0 <? decimal_value 0 (String c s))
      then Some (decimal_value 0 (String c s))
      else None
  | _ => None
  end.

(** ** Sample stores and runs *)

Definition sample_task : Task := mkTask 1 "write report" "todo" "T0" "T0".

Definition sample_world : world := mkWorld (Json (of_tasks [sample_task])) None.

Definition three_tasks : list Task :=
  [mkTask 1 "buy milk" "todo" "T1" "T1";
   mkTask 2 "call home" "in-progress" "T2" "T4";
   mkTask 3 "pay rent" "done" "T3" "T5"].

(** Two tasks added, the second deleted, a third added. *)
Definition reuse_run : list invocation :=
  [mkInvocation (Some "add") ["buy milk"] "T1" None;
   mkInvocation (Some "add") ["call home"] "T2" None;
   mkInvocation (Some "delete") ["2"] "T3" None;
   mkInvocation (Some "add") ["pay rent"] "T4" None].

(** ** Transitions of the stored collection *)

(** The ways in which one invocation can change the stored collection:
    not at all; a task appended by [addTask]; the description and updatedAt
    of the first task with an id replaced by [updateTask]; the tasks with an
    id filtered out by [deleteTask]. *)
Inductive step (ts : list Task) : list Task -> Prop :=
| step_same : step ts ts
| step_added (d now : string) :
    d <> "" ->
    step ts (ts ++ [mkTask (getNextId ts) d "todo" now now])
| step_updated (l1 l2 : list Task) (t : Task) (d now : string) :
    ts = l1 ++ t :: l2 -> d <> "" -> id t ∉ ids l1 ->
    step ts (l1 ++ mkTask (id t) d (status t) (createdAt t) now :: l2)
| step_deleted (n : Z) :
    n ∈ ids ts ->
    step ts (filter (fun t => id t ≠ n) ts).

(** A command that, on a stored collection, returns, takes the collection
    through one [step], and either leaves the world as it was or, with the
    write succeeding, leaves a file holding the new collection. *)
Definition transits (m : M unit) : Prop :=
  forall w ts,
    stored_tasks w = Some ts ->
    exists w' out ts',
      m w = Some (tt, w', out) /\
      stored_tasks w' = Some ts' /\
      step ts ts' /\
      (w' = w \/
       (write_error w = None /\ w' = mkWorld (Json (of_tasks ts')) None)).

(** The command names [main] dispatches on. *)
Definition known_commands : list string :=
  ["add"; "list"; "update"; "delete"; "mark-in-progress"; "mark-done"].

(** The commands that call [saveTasks]. *)
Definition writing_commands : list string := ["add"; "update"; "delete"].

(** Ids grow along the stored order. *)
Definition increasing_ids (ts : list Task) : Prop :=
  StronglySorted Z.lt (ids ts).

(** ** Basic facts about the monad and the store *)

Section Store.

Lemma as_task_of_task (t : Task) : as_task (of_task t) = Some t.
Proof. by destruct t. Qed.

Lemma as_tasks_of_tasks (ts : list Task) : as_tasks (of_tasks ts) = Some ts.
Proof.
  unfold as_tasks, of_tasks.
  induction ts as [|t ts IH]; [done|].
  cbn [fmap list_fmap mapM]. rewrite as_task_of_task. cbn.
  rewrite IH. done.
Qed.

Lemma loadTasks_world (w : world) :
  exists v out, loadTasks w = Some (v, w, out).
Proof.
  unfold loadTasks, mbind, M_bind, bind, observe_file.
  destruct (loadTasks_try (file w)) as [e|v]; [|by eexists _, _].
  case_bool_decide; by eexists _, _.
Qed.

Lemma bind_eq {A B : Type} (m : M A) (k : A -> M B) (w : world) :
  (m ≫= k) w =
  match m w with
  | None => None
  | Some (a, w1, out1) =>
      match k a w1 with
      | None => None
      | Some (b, w2, out2) => Some (b, w2, out1 ++ out2)
      end
  end.
Proof. reflexivity. Qed.

(** Loading and using the value as an array of tasks. *)
Lemma with_tasks {B : Type} (k : list Task -> M B) (w : world) (ts : list Task) :
  stored_tasks w = Some ts ->
  (tasks ← loadTasks; tasks ← expect_tasks tasks; k tasks) w =
  match k ts w with
  | None => None
  | Some (b, w2, out2) => Some (b, w2, load_output w ++ out2)
  end.
Proof.
  unfold stored_tasks, load_output. intros H.
  rewrite bind_eq.
  destruct (loadTasks_world w) as (v & out & Hl). rewrite Hl in *.
  rewrite bind_eq. unfold expect_tasks at 1. rewrite H.
  destruct (k ts w) as [[[b w2] out2]|]; [|done].
  by rewrite app_nil_l.
Qed.

Lemma stored_tasks_saved (ts : list Task) (we : option string) :
  stored_tasks (mkWorld (Json (of_tasks ts)) we) = Some ts.
Proof. unfold stored_tasks. cbn. apply as_tasks_of_tasks. Qed.

(** What is loaded depends on the file only. *)
Lemma stored_tasks_file (w : world) (we : option string) :
  stored_tasks (mkWorld (file w) we) = stored_tasks w.
Proof.
  unfold stored_tasks, loadTasks. rewrite !bind_eq. unfold observe_file.
  cbn [file]. destruct (loadTasks_try (file w)) as [e|v]; [|done].
  by case_bool_decide.
Qed.

Lemma load_output_file (w : world) (we : option string) :
  load_output (mkWorld (file w) we) = load_output w.
Proof.
  unfold load_output, loadTasks. rewrite !bind_eq. unfold observe_file.
  cbn [file]. destruct (loadTasks_try (file w)) as [e|v]; [|done].
  by case_bool_decide.
Qed.

End Store.

(** ** The store: what [loadTasks] returns *)

(** X18.  [loadTasks] by the state of the file.  It returns the empty array,
    silently, when the file is absent or has length zero (or vanishes while
    it is read); it returns the empty array and reports corrupt data when
    the content cannot be read or is not JSON text; when the content is JSON
    text it returns what [JSON.parse] yields, in particular the stored
    sequence of tasks when the file encodes one.  The world is never
    changed. *)
Theorem loadTasks_cases (w : world) :
  (file w = Absent \/ file w = ZeroLength ->
     loadTasks w = Some (JArr [], w, [])) /\
  (forall msg, file w = Malformed msg ->
     loadTasks w = Some (JArr [], w, [Error (CorruptFile msg)])) /\
  (forall e, file w = Unreadable e ->
     loadTasks w =
     Some (JArr [], w,
           if bool_decide (exn_code e = Some "ENOENT") then []
           else [Error (CorruptFile (exn_message e))])) /\
  (forall v, file w = Json v -> loadTasks w = Some (v, w, [])) /\
  (forall ts, file w = Json (of_tasks ts) -> stored_tasks w = Some ts).
Proof.
  unfold stored_tasks, loadTasks.
  rewrite bind_eq. unfold observe_file.
  repeat split.
  - intros [-> | ->]; reflexivity.
  - intros msg ->. reflexivity.
  - intros e ->. cbn. by case_bool_decide.
  - intros v ->. reflexivity.
  - intros ts ->. cbn. apply as_tasks_of_tasks.
Qed.

Lemma loadTasks_cases_witness :
  loadTasks (mkWorld ZeroLength None) = Some (JArr [], mkWorld ZeroLength None, []) /\
  loadTasks (mkWorld (Malformed "Unexpected token") None) =
    Some (JArr [], mkWorld (Malformed "Unexpected token") None,
          [Error (CorruptFile "Unexpected token")]) /\
  stored_tasks (mkWorld (Json (of_tasks [sample_task])) None) = Some [sample_task].
Proof.
  split; [|split].
  - apply (proj1 (loadTasks_cases (mkWorld ZeroLength None))). right. reflexivity.
  - apply (proj1 (proj2 (loadTasks_cases (mkWorld (Malformed "Unexpected token") None)))).
    reflexivity.
  - apply (proj2 (proj2 (proj2 (proj2
      (loadTasks_cases (mkWorld (Json (of_tasks [sample_task])) None)))))).
    reflexivity.
Defined.

(** C5, on the script: for a file holding the JSON text of an object that is
    not a sequence of task records, [loadTasks] returns that object rather
    than the empty array, and reports no corrupt-data condition, although it
    is documented to return the array of tasks, or an empty array on an
    error. *)
Lemma loadTasks_returns_non_task_json :
  let v := JObj [("a", JNum 1)] in
  let w := mkWorld (Json v) None in
  as_tasks v = None /\
  loadTasks w = Some (v, w, []) /\
  (forall msg, loadTasks w <> Some (JArr [], w, [Error (CorruptFile msg)])).
Proof. cbn. repeat split. intros msg H. discriminate H. Qed.

(** ** The dispatcher: [mark-in-progress] and [mark-done] *)

Lemma main_mark_in_development (c : string) (ARGS : list string) (now : string)
    (w : world) :
  c = "mark-in-progress" \/ c = "mark-done" ->
  main (Some c) ARGS now w = Some (tt, w, [Log (InDevelopment c)]).
Proof. intros [-> | ->]; reflexivity. Qed.

(** C1, on the script: the two mark commands print that the command is under
    development and return the world they were given, whatever the arguments
    and the store.  So [mark-done 1] and [mark-in-progress 1], run on a store
    that holds task 1 with status [todo], print that the command is under
    development and leave the store as it was, so the status is not set; and
    [mark-done 7], for an id no task has, prints the same line and no
    not-found error. *)
Theorem mark_commands_change_nothing :
  let w := mkWorld (Json (of_tasks [sample_task])) None in
  (forall ARGS now w',
     main (Some "mark-in-progress") ARGS now w' =
       Some (tt, w', [Log (InDevelopment "mark-in-progress")])) /\
  (forall ARGS now w',
     main (Some "mark-done") ARGS now w' =
       Some (tt, w', [Log (InDevelopment "mark-done")])) /\
  stored_tasks w = Some [sample_task] /\
  status sample_task = "todo" /\
  main (Some "mark-done") ["1"] "T1" w =
    Some (tt, w, [Log (InDevelopment "mark-done")]) /\
  main (Some "mark-in-progress") ["1"] "T1" w =
    Some (tt, w, [Log (InDevelopment "mark-in-progress")]) /\
  main (Some "mark-done") ["7"] "T1" w =
    Some (tt, w, [Log (InDevelopment "mark-done")]).
Proof.
  cbv zeta.
  split; [intros; apply main_mark_in_development; by left|].
  split; [intros; apply main_mark_in_development; by right|].
  repeat split.
Qed.

(** ** Operations on a stored collection *)

Section Operations.

Implicit Types (w : world) (ts : list Task) (n : Z).

Lemma save_then_log ts (m : message) w :
  (saveTasks ts;; console_log m) w =
  match write_error w with
  | None => Some (tt, mkWorld (Json (of_tasks ts)) None, [Log m])
  | Some msg => Some (tt, w, [Error (SaveFailed msg); Log m])
  end.
Proof.
  rewrite bind_eq. unfold saveTasks, console_log.
  by destruct (write_error w).
Qed.

(** [addTask] with a description: the new task is appended and the id is
    the one [getNextId] computes. *)
Lemma addTask_eq w ts (description : JS.arg) (now : string) :
  stored_tasks w = Some ts ->
  JS.truthy description = true ->
  addTask description now w =
  let newId := getNextId ts in
  let newTask := mkTask newId (JS.ToString description) "todo" now now in
  match write_error w with
  | None =>
      Some (tt, mkWorld (Json (of_tasks (ts ++ [newTask]))) None,
            load_output w ++ [Log (Added newId)])
  | Some msg =>
      Some (tt, w, load_output w ++ [Error (SaveFailed msg); Log (Added newId)])
  end.
Proof.
  intros Hts Hd. unfold addTask. rewrite Hd. cbv zeta. cbn [negb].
  rewrite (with_tasks _ w ts Hts), save_then_log.
  by destruct (write_error w).
Qed.

Lemma addTask_no_description w (description : JS.arg) (now : string) :
  JS.truthy description = false ->
  addTask description now w = Some (tt, w, [Error DescriptionRequired]).
Proof. intros Hd. unfold addTask. by rewrite Hd. Qed.

Lemma findIndex_None n ts :
  n ∉ ids ts -> findIndex (fun t => id t = n) ts = None.
Proof.
  intros Hn. unfold findIndex.
  assert (list_find (fun t => id t = n) ts = None) as ->; [|done].
  apply list_find_None, Forall_forall. intros t Ht <-.
  apply Hn. unfold ids. by apply list_elem_of_fmap_2.
Qed.

Lemma findIndex_first n (l1 l2 : list Task) (t : Task) :
  n ∉ ids l1 -> id t = n ->
  findIndex (fun t => id t = n) (l1 ++ t :: l2) = Some (length l1).
Proof.
  intros Hn Ht. unfold findIndex.
  rewrite list_find_app_r.
  - cbn. rewrite decide_True by done. done.
  - apply list_find_None, Forall_forall. intros t' Ht' <-.
    apply Hn. unfold ids. by apply list_elem_of_fmap_2.
Qed.

(** [updateTask] with a numeric id and a description. *)
Lemma updateTask_eq w ts (id_ newDescription : JS.arg) (now : string) n :
  stored_tasks w = Some ts ->
  JS.parseInt id_ = Some n ->
  JS.truthy newDescription = true ->
  updateTask id_ newDescription now w =
  match findIndex (fun t => id t = n) ts with
  | None => Some (tt, w, load_output w ++ [Error (TaskNotFound n)])
  | Some i =>
      let ts' := alter (set_updatedAt now)  i
                   (alter (set_description (JS.ToString newDescription)) i ts) in
      match write_error w with
      | None =>
          Some (tt, mkWorld (Json (of_tasks ts')) None,
                load_output w ++ [Log (Updated n)])
      | Some msg =>
          Some (tt, w, load_output w ++ [Error (SaveFailed msg); Log (Updated n)])
      end
  end.
Proof.
  intros Hts Hid Hd. unfold updateTask.
  rewrite (with_tasks _ w ts Hts), Hid, Hd. cbv zeta. cbn [negb].
  destruct (findIndex _ ts) as [i|]; [|done].
  rewrite save_then_log. by destruct (write_error w).
Qed.

Lemma updateTask_usage w ts (id_ newDescription : JS.arg) (now : string) :
  stored_tasks w = Some ts ->
  JS.parseInt id_ = None \/ JS.truthy newDescription = false ->
  updateTask id_ newDescription now w =
  Some (tt, w, load_output w ++ [Error UpdateUsage]).
Proof.
  intros Hts Hbad. unfold updateTask. rewrite (with_tasks _ w ts Hts).
  destruct (JS.parseInt id_); [|done].
  destruct Hbad as [H | ->]; [discriminate H | done].
Qed.

Lemma filter_ne_absent n ts :
  n ∉ ids ts -> filter (fun t => id t ≠ n) ts = ts.
Proof.
  unfold ids. induction ts as [|t ts IH]; [done|].
  rewrite fmap_cons, not_elem_of_cons. intros [Hne Hn].
  rewrite filter_cons_True by done. by rewrite IH.
Qed.

Lemma filter_ne_present n ts :
  n ∈ ids ts -> (length (filter (fun t => id t ≠ n) ts) < length ts)%nat.
Proof.
  unfold ids. intros Hn. apply list_elem_of_fmap in Hn as (t & -> & Ht).
  apply (length_filter_lt _ _ t); [done|]. by intros H.
Qed.

(** [deleteTask] with a numeric id. *)
Lemma deleteTask_eq w ts (id_ : JS.arg) n :
  stored_tasks w = Some ts ->
  JS.parseInt id_ = Some n ->
  deleteTask id_ w =
  if bool_decide (n ∈ ids ts) then
    match write_error w with
    | None =>
        Some (tt, mkWorld (Json (of_tasks (filter (fun t => id t ≠ n) ts))) None,
              load_output w ++ [Log (Deleted n)])
    | Some msg =>
        Some (tt, w, load_output w ++ [Error (SaveFailed msg); Log (Deleted n)])
    end
  else Some (tt, w, load_output w ++ [Error (TaskNotFound n)]).
Proof.
  intros Hts Hid. unfold deleteTask.
  rewrite (with_tasks _ w ts Hts), Hid. cbv zeta.
  case_bool_decide as Hin.
  - apply filter_ne_present in Hin.
    destruct (Nat.eqb_spec (length (filter (fun t => id t ≠ n) ts)) (length ts)); [lia|].
    rewrite save_then_log. by destruct (write_error w).
  - rewrite (filter_ne_absent _ _ Hin), Nat.eqb_refl. done.
Qed.

Lemma deleteTask_usage w ts (id_ : JS.arg) :
  stored_tasks w = Some ts ->
  JS.parseInt id_ = None ->
  deleteTask id_ w = Some (tt, w, load_output w ++ [Error DeleteUsage]).
Proof.
  intros Hts Hid. unfold deleteTask. by rewrite (with_tasks _ w ts Hts), Hid.
Qed.

End Operations.

(** ** Listing *)

Section Listing.

Implicit Types (w : world) (ts : list Task).

Lemma forEach_rows ts w :
  forEach ts (fun t => console_log (TaskRow t)) w = Some (tt, w, rows ts).
Proof.
  induction ts as [|t ts IH]; [done|].
  cbn [forEach]. rewrite bind_eq. unfold console_log at 1. cbv beta iota.
  by rewrite IH.
Qed.

Lemma print_tasks_eq ts w : print_tasks ts w = Some (tt, w, listing ts).
Proof.
  unfold print_tasks. rewrite bind_eq. unfold console_log at 1. cbv beta iota.
  rewrite bind_eq, forEach_rows. done.
Qed.

Lemma displayed_rows ts : displayed (rows ts) = ts.
Proof.
  unfold displayed, rows. induction ts as [|t ts IH]; [done|].
  cbn. by rewrite IH.
Qed.

Lemma displayed_listing ts : displayed (listing ts) = ts.
Proof.
  unfold listing, displayed. rewrite !omap_app. cbn.
  fold (displayed (rows ts)). by rewrite displayed_rows, app_nil_r.
Qed.

Lemma displayed_load_output w : displayed (load_output w) = [].
Proof.
  unfold load_output, loadTasks. rewrite bind_eq. unfold observe_file.
  destruct (loadTasks_try (file w)) as [e|v]; [|done].
  by case_bool_decide.
Qed.

Lemma toLowerCase_idemp (s : string) :
  JS.toLowerCase (JS.toLowerCase s) = JS.toLowerCase s.
Proof.
  induction s as [|c s IH]; [done|].
  cbn [JS.toLowerCase]. rewrite IH. f_equal.
  by destruct c as [[] [] [] [] [] [] [] []].
Qed.

Lemma or_default_toLowerCase (s : string) :
  JS.toLowerCase (JS.or_default (Some (JS.toLowerCase s)) "all") =
  JS.toLowerCase (JS.or_default (Some s) "all").
Proof.
  destruct s as [|c s]; [done|].
  change (JS.toLowerCase (JS.toLowerCase (String c s)) =
          JS.toLowerCase (String c s)).
  apply toLowerCase_idemp.
Qed.

Lemma length_eqb_0 {A : Type} (l : list A) :
  (length l =? 0)%nat = bool_decide (l = []).
Proof. by destruct l. Qed.

(** [listTasks] on a stored collection, by the lower-cased filter. *)
Lemma listTasks_eq w ts (statusFilter : JS.arg) :
  stored_tasks w = Some ts ->
  listTasks statusFilter w =
  let filter_ := JS.toLowerCase (JS.or_default statusFilter "all") in
  Some (tt, w,
        load_output w ++
        if bool_decide (ts = []) then [Log NoTasks]
        else if bool_decide (filter_ = "all") then listing ts
        else if bool_decide (filter_ ∈ validStatuses) then
          let shown := filter (fun t => status t = filter_) ts in
          if bool_decide (shown = []) then [Log (NoTasksWithStatus filter_)]
          else listing shown
        else [Error (InvalidFilter filter_)]).
Proof.
  intros Hts. unfold listTasks. rewrite (with_tasks _ w ts Hts). cbv zeta.
  rewrite length_eqb_0. case_bool_decide; [done|].
  destruct (decide (JS.toLowerCase (JS.or_default statusFilter "all") = "all")) as [Hall|Hall].
  - rewrite (bool_decide_eq_false_2 _) by (by intros H'; apply H').
    rewrite (bool_decide_eq_true_2 _ Hall). by rewrite print_tasks_eq.
  - rewrite (bool_decide_eq_true_2 (_ ≠ _) Hall), (bool_decide_eq_false_2 _ Hall).
    case_bool_decide; cbn [negb]; [|done].
    rewrite length_eqb_0. case_bool_decide; [done|].
    by rewrite print_tasks_eq.
Qed.

End Listing.

(** C10.  Listing with a filter string behaves exactly as listing with its
    lower-case form: the stored world is left as it is and the same lines are
    printed, whatever the store holds. *)
Theorem listTasks_case_insensitive (s : string) (w : world) :
  listTasks (Some s) w = listTasks (Some (JS.toLowerCase s)) w.
Proof.
  unfold listTasks. by rewrite or_default_toLowerCase.
Qed.

(** C3, as the script behaves.  On a store that holds at least one task, a
    non-empty filter whose lower-case form is none of all, todo, in-progress
    and done is rejected: the only line printed by the command is the
    invalid-filter error, no task is listed and the store is untouched. *)
Theorem listTasks_rejects_unknown_filter (w : world) (ts : list Task) (s : string) :
  stored_tasks w = Some ts ->
  ts <> [] ->
  s <> "" ->
  (JS.toLowerCase s ∉ ["all"; "todo"; "in-progress"; "done"]) ->
  listTasks (Some s) w =
    Some (tt, w, load_output w ++ [Error (InvalidFilter (JS.toLowerCase s))]) /\
  displayed (load_output w ++ [Error (InvalidFilter (JS.toLowerCase s))]) = [].
Proof.
  intros Hts Hne Hs Hbad. split.
  - rewrite (listTasks_eq w ts _ Hts). cbv zeta.
    assert (JS.or_default (Some s) "all" = s) as ->.
    { by destruct s. }
    rewrite (bool_decide_eq_false_2 _ Hne).
    rewrite not_elem_of_cons in Hbad. destruct Hbad as [Hall Hval].
    rewrite (bool_decide_eq_false_2 _ Hall).
    by rewrite (bool_decide_eq_false_2 _ Hval).
  - unfold displayed. rewrite omap_app. fold (displayed (load_output w)).
    by rewrite displayed_load_output.
Qed.

Lemma listTasks_rejects_unknown_filter_witness :
  listTasks (Some "Urgent") sample_world =
    Some (tt, sample_world, [Error (InvalidFilter "urgent")]) /\
  displayed [Error (InvalidFilter "urgent")] = [].
Proof.
  apply (listTasks_rejects_unknown_filter sample_world [sample_task] "Urgent").
  - reflexivity.
  - discriminate.
  - discriminate.
  - compute_done.
Defined.

(** C3, as stated, fails at three kinds of input.  On an empty store the
    filter is not looked at: listing with the filter [bogus] prints that
    there are no tasks.  On a store holding task 1 (status todo), the filter
    [DONE], which is not one of the four lower-case names, is accepted and
    treated as [done]; and the empty filter lists every task. *)
Lemma listTasks_unknown_filter_not_rejected :
  ("bogus" ∉ ["all"; "todo"; "in-progress"; "done"]) /\
  listTasks (Some "bogus") (mkWorld Absent None) =
    Some (tt, mkWorld Absent None, [Log NoTasks]) /\
  ("DONE" ∉ ["all"; "todo"; "in-progress"; "done"]) /\
  listTasks (Some "DONE") sample_world =
    Some (tt, sample_world, [Log (NoTasksWithStatus "done")]) /\
  ("" ∉ ["all"; "todo"; "in-progress"; "done"]) /\
  listTasks (Some "") sample_world =
    Some (tt, sample_world,
          [Log ListHeader; Log (TaskRow sample_task); Log ListFooter]).
Proof.
  split; [compute_done|]. split; [reflexivity|].
  split; [compute_done|]. split; [reflexivity|].
  split; [compute_done|]. reflexivity.
Qed.

(** C9.  On a stored collection, listing with one of the status names
    displays exactly the tasks with that status, in stored order; listing
    with [all], or with no filter, displays every task in stored order; and
    when the only task whose status is done is the task with id 3, listing
    with [done] displays exactly that task. *)
Theorem listTasks_displays_matching (w : world) (ts : list Task) :
  stored_tasks w = Some ts ->
  (forall f, f ∈ validStatuses ->
     exists out, listTasks (Some f) w = Some (tt, w, out) /\
                 displayed out = filter (fun t => status t = f) ts) /\
  (forall x, x = None \/ x = Some "all" ->
     exists out, listTasks x w = Some (tt, w, out) /\ displayed out = ts) /\
  (forall l1 t l2,
     ts = l1 ++ t :: l2 -> id t = 3 -> status t = "done" ->
     Forall (fun t' => status t' <> "done") (l1 ++ l2) ->
     exists out, listTasks (Some "done") w = Some (tt, w, out) /\
                 displayed out = [t]).
Proof.
  intros Hts.
  assert (Hstatus : forall f, f ∈ validStatuses ->
     exists out, listTasks (Some f) w = Some (tt, w, out) /\
                 displayed out = filter (fun t => status t = f) ts).
  { intros f Hf. eexists. split; [apply (listTasks_eq w ts _ Hts)|].
    cbv zeta.
    assert (Hlow : JS.toLowerCase (JS.or_default (Some f) "all") = f).
    { unfold validStatuses in Hf.
      repeat (apply elem_of_cons in Hf as [-> | Hf]; [reflexivity|]).
      by apply elem_of_nil in Hf. }
    rewrite Hlow.
    unfold displayed. rewrite omap_app. fold (displayed (load_output w)).
    rewrite displayed_load_output, app_nil_l.
    case_bool_decide as Hnil; [by subst ts|].
    rewrite (bool_decide_eq_false_2 (f = "all")).
    2:{ intros ->. revert Hf. compute_done. }
    rewrite (bool_decide_eq_true_2 _ Hf). cbv zeta.
    case_bool_decide as Hshown; [by rewrite Hshown|].
    apply displayed_listing. }
  split; [exact Hstatus|]. split.
  - intros x Hx. eexists. split; [apply (listTasks_eq w ts _ Hts)|].
    cbv zeta.
    assert (JS.toLowerCase (JS.or_default x "all") = "all") as ->.
    { by destruct Hx as [-> | ->]. }
    unfold displayed. rewrite omap_app. fold (displayed (load_output w)).
    rewrite displayed_load_output, app_nil_l.
    case_bool_decide as Hnil; [by subst ts|].
    apply displayed_listing.
  - intros l1 t l2 -> Hid Hdone Hothers.
    destruct (Hstatus "done") as (out & Hout & Hshown); [compute_done|].
    exists out. split; [done|]. rewrite Hshown.
    apply Forall_app in Hothers as [H1 H2].
    rewrite filter_app, filter_cons_True by done.
    assert (Hnone : forall l, Forall (fun t' => status t' <> "done") l ->
                              filter (fun t' => status t' = "done") l = []).
    { induction 1 as [|t' l Ht' _ IH]; [done|].
      by rewrite filter_cons_False. }
    by rewrite (Hnone l1 H1), (Hnone l2 H2).
Qed.

Lemma listTasks_displays_matching_witness :
  exists out,
    listTasks (Some "done") (mkWorld (Json (of_tasks three_tasks)) None) =
      Some (tt, mkWorld (Json (of_tasks three_tasks)) None, out) /\
    displayed out = [mkTask 3 "pay rent" "done" "T3" "T5"].
Proof.
  apply (proj2 (proj2 (listTasks_displays_matching
           (mkWorld (Json (of_tasks three_tasks)) None) three_tasks eq_refl))
         [mkTask 1 "buy milk" "todo" "T1" "T1";
          mkTask 2 "call home" "in-progress" "T2" "T4"]
         (mkTask 3 "pay rent" "done" "T3" "T5") []).
  - reflexivity.
  - reflexivity.
  - reflexivity.
  - repeat constructor; discriminate.
Defined.

(** ** Identifiers *)

Section NextId.

Implicit Types (ts : list Task) (t : Task).

Lemma max_from_bounds ts (a : Z) :
  a <= max_from a ts /\
  Forall (fun t => id t <= max_from a ts) ts /\
  (max_from a ts = a \/ max_from a ts ∈ ids ts).
Proof.
  unfold max_from, ids. revert a.
  induction ts as [|t ts IH]; intros a; cbn [fold_left].
  - split; [lia|]. split; [constructor | by left].
  - destruct (IH (Z.max a (id t))) as (Hle & Hall & Hin).
    split; [lia|]. split.
    + constructor; [lia | done].
    + rewrite fmap_cons. destruct Hin as [Heq | Hin].
      * rewrite Heq. destruct (Z.max_spec a (id t)) as [[_ ->] | [_ ->]].
        -- right. by left.
        -- by left.
      * right. by right.
Qed.

Lemma getNextId_eq ts : getNextId ts = max_from 0 ts + 1.
Proof. by destruct ts. Qed.

Lemma getNextId_gt ts t : t ∈ ts -> id t < getNextId ts.
Proof.
  intros Ht. rewrite getNextId_eq.
  destruct (max_from_bounds ts 0) as (_ & Hall & _).
  rewrite Forall_forall in Hall. specialize (Hall t Ht). lia.
Qed.

Lemma getNextId_fresh ts : getNextId ts ∉ ids ts.
Proof.
  unfold ids. intros Hin. apply list_elem_of_fmap in Hin as (t & Heq & Ht).
  apply getNextId_gt in Ht. lia.
Qed.

Lemma getNextId_pos ts : 1 <= getNextId ts.
Proof.
  rewrite getNextId_eq. destruct (max_from_bounds ts 0) as (H0 & _). lia.
Qed.

Lemma getNextId_snoc ts t :
  id t = getNextId ts -> getNextId (ts ++ [t]) = getNextId ts + 1.
Proof.
  intros Ht. rewrite !getNextId_eq in *. unfold max_from in *.
  rewrite fold_left_app. cbn [fold_left]. lia.
Qed.

(** On a collection of positive ids, [getNextId] is the next id of the data
    model. *)
Lemma getNextId_next_id ts :
  Forall (fun t => 0 < id t) ts -> next_id (getNextId ts) ts.
Proof.
  intros Hpos. destruct ts as [|t0 ts']; [by left|]. right.
  set (ts := t0 :: ts') in *.
  exists (max_from 0 ts). split; [|apply getNextId_eq].
  destruct (max_from_bounds ts 0) as (H0 & Hall & Hin).
  split.
  - destruct Hin as [Heq | Hin]; [|done].
    rewrite Forall_forall in Hall, Hpos.
    assert (Hin0 : t0 ∈ ts) by (by left).
    specialize (Hall t0 Hin0). specialize (Hpos t0 Hin0). lia.
  - unfold ids. apply Forall_fmap. exact Hall.
Qed.

End NextId.

(** ** Adding tasks in sequence *)

Section Adding.

Implicit Types (w : world) (ts : list Task) (ds : list (string * string)).

Lemma assigned_ids_load_output w : assigned_ids (load_output w) = [].
Proof.
  unfold load_output, loadTasks. rewrite bind_eq. unfold observe_file.
  destruct (loadTasks_try (file w)) as [e|v]; [|done].
  by case_bool_decide.
Qed.

Lemma new_tasks_cons (n : Z) (d : string * string) ds :
  new_tasks n (d :: ds) = mkTask n d.1 "todo" d.2 d.2 :: new_tasks (n + 1) ds.
Proof.
  unfold new_tasks. rewrite imap_cons. f_equal.
  - f_equal. lia.
  - apply imap_ext. intros k d' _. cbn. f_equal. lia.
Qed.

Lemma ids_new_tasks (n : Z) ds :
  ids (new_tasks n ds) = (fun k => n + Z.of_nat k) <$> seq 0 (length ds).
Proof.
  unfold ids, new_tasks. rewrite fmap_imap.
  rewrite <- (imap_seq_0 ds (fun k => n + Z.of_nat k)) at 1.
  unfold compose. rewrite imap_seq_0, <- imap_seq_0.
  apply imap_ext. done.
Qed.

Lemma main_add (d now : string) w :
  main (Some "add") [d] now w = addTask (Some d) now w.
Proof. reflexivity. Qed.

Lemma run_adds w ts ds :
  stored_tasks w = Some ts ->
  Forall (fun d => d.1 <> "") ds ->
  exists w' out,
    run (add_invocation <$> ds) w = Some (w', out) /\
    stored_tasks w' = Some (ts ++ new_tasks (getNextId ts) ds) /\
    assigned_ids out = ids (new_tasks (getNextId ts) ds).
Proof.
  intros Hts Hds. revert w ts Hts.
  induction Hds as [|d ds Hd _ IH]; intros w ts Hts.
  - exists w, []. cbn. by rewrite app_nil_r.
  - rewrite fmap_cons.
    cbn [run add_invocation inv_command inv_args inv_now inv_write_error].
    rewrite main_add, (addTask_eq _ ts (Some d.1) d.2).
    2:{ by rewrite stored_tasks_file. }
    2:{ by destruct (d.1). }
    cbv zeta. cbn [write_error]. rewrite load_output_file.
    set (t := mkTask (getNextId ts) _ _ _ _).
    destruct (IH (mkWorld (Json (of_tasks (ts ++ [t]))) None) (ts ++ [t]))
      as (w' & out & Hrun & Hst & Hids).
    { apply stored_tasks_saved. }
    rewrite (getNextId_snoc ts t eq_refl) in Hst, Hids.
    change (fmap add_invocation ds) with (add_invocation <$> ds) in *.
    rewrite Hrun. eexists _, _. split; [done|].
    rewrite new_tasks_cons. split.
    + rewrite Hst. by rewrite <- app_assoc.
    + unfold assigned_ids in *. rewrite !omap_app, Hids.
      fold (assigned_ids (load_output w)). rewrite assigned_ids_load_output.
      done.
Qed.

End Adding.

(** C6.  On a stored collection of tasks with positive ids, adding the
    non-empty descriptions [ds] one after the other, by invocations whose
    writes succeed, and with room for that many ids below
    [JS.MAX_SAFE_INTEGER] (where the additions of the script are exact),
    creates one task per description; the first gets the largest
    existing id plus 1 (1 when the collection is empty) and each further one
    the id after that, so the new ids are strictly increasing, distinct, and
    larger than every id that was there; they are the ids [addTask] reports. *)
Theorem add_assigns_increasing_ids (w : world) (ts : list Task)
    (ds : list (string * string)) :
  stored_tasks w = Some ts ->
  Forall (fun t => 0 < id t) ts ->
  Forall (fun d => d.1 <> "") ds ->
  Z.of_nat (length ds) <= JS.MAX_SAFE_INTEGER ->
  Forall (fun t => id t + Z.of_nat (length ds) <= JS.MAX_SAFE_INTEGER) ts ->
  exists n w' out news,
    next_id n ts /\
    run (add_invocation <$> ds) w = Some (w', out) /\
    stored_tasks w' = Some (ts ++ news) /\
    news = new_tasks n ds /\
    length news = length ds /\
    assigned_ids out = ids news /\
    (forall i j ti tj,
       news !! i = Some ti -> news !! j = Some tj -> (i < j)%nat ->
       id ti < id tj) /\
    NoDup (ids news) /\
    (forall t t', t ∈ ts -> t' ∈ news -> id t < id t') /\
    Forall safe_integer (ids news).
Proof.
  intros Hts Hpos Hds Hroom0 Hroom.
  destruct (run_adds w ts ds Hts Hds) as (w' & out & Hrun & Hst & Hids).
  exists (getNextId ts), w', out, (new_tasks (getNextId ts) ds).
  split; [by apply getNextId_next_id|].
  do 3 (split; [done|]).
  split; [apply length_imap|]. split; [done|].
  assert (Hlook : forall i ti, new_tasks (getNextId ts) ds !! i = Some ti ->
                               id ti = getNextId ts + Z.of_nat i).
  { intros i ti. unfold new_tasks. rewrite list_lookup_imap.
    destruct (ds !! i); [|done]. by intros [= <-]. }
  split; [|split; [|split]].
  - intros i j ti tj Hi Hj Hlt.
    rewrite (Hlook i ti Hi), (Hlook j tj Hj). lia.
  - rewrite ids_new_tasks. apply NoDup_fmap_2; [|apply NoDup_seq].
    intros a b Hab. lia.
  - intros t t' Ht Ht'. apply list_elem_of_lookup in Ht' as (i & Hi).
    rewrite (Hlook i t' Hi). apply getNextId_gt in Ht. lia.
  - assert (Hmax : max_from 0 ts + Z.of_nat (length ds) <= JS.MAX_SAFE_INTEGER).
    { destruct (max_from_bounds ts 0) as (_ & _ & [-> | Hin]); [lia|].
      unfold ids in Hin. apply list_elem_of_fmap in Hin as (t & -> & Ht).
      rewrite Forall_forall in Hroom. by apply Hroom. }
    pose proof (getNextId_pos ts) as Hone.
    unfold ids. apply Forall_fmap, Forall_forall. intros t' Ht'.
    apply list_elem_of_lookup in Ht' as (i & Hi).
    pose proof (lookup_lt_Some _ _ _ Hi) as Hlen.
    unfold new_tasks in Hlen. rewrite length_imap in Hlen.
    cbn. rewrite (Hlook i t' Hi). rewrite getNextId_eq in *.
    unfold safe_integer. lia.
Qed.

Lemma add_assigns_increasing_ids_witness :
  exists n w' out news,
    next_id n three_tasks /\
    run (add_invocation <$> [("water plants", "T6"); ("fix bike", "T7")])
        (mkWorld (Json (of_tasks three_tasks)) None) = Some (w', out) /\
    stored_tasks w' = Some (three_tasks ++ news) /\
    news = new_tasks n [("water plants", "T6"); ("fix bike", "T7")] /\
    length news = 2%nat /\
    assigned_ids out = ids news /\
    (forall i j ti tj,
       news !! i = Some ti -> news !! j = Some tj -> (i < j)%nat ->
       id ti < id tj) /\
    NoDup (ids news) /\
    (forall t t', t ∈ three_tasks -> t' ∈ news -> id t < id t') /\
    Forall safe_integer (ids news).
Proof.
  apply (add_assigns_increasing_ids
           (mkWorld (Json (of_tasks three_tasks)) None) three_tasks
           [("water plants", "T6"); ("fix bike", "T7")]).
  - reflexivity.
  - repeat constructor.
  - repeat constructor; discriminate.
  - unfold JS.MAX_SAFE_INTEGER. cbn. lia.
  - unfold JS.MAX_SAFE_INTEGER. repeat constructor; cbn; lia.
Defined.

(** ** The invariant of the stored collection *)

Section Invariant.

Implicit Types (w : world) (ts : list Task).

Lemma keeps_unchanged (m : M unit) :
  (forall w ts, stored_tasks w = Some ts -> exists out, m w = Some (tt, w, out)) ->
  keeps m.
Proof.
  intros Hm w ts Hts Hwf. destruct (Hm w ts Hts) as (out & Hout).
  by exists w, out, ts.
Qed.

Lemma ids_alter (f : Task -> Task) (i : nat) ts :
  (forall t, id (f t) = id t) -> ids (alter f i ts) = ids ts.
Proof.
  intros Hf. unfold ids. revert i.
  induction ts as [|t ts IH]; intros [|i]; cbn; try done.
  - by rewrite Hf.
  - change (list_fmap Task Z id) with (fmap (M:=list) id).
    change (list_alter f i ts) with (alter f i ts). by rewrite IH.
Qed.

Lemma ids_filter_ne (n : Z) ts :
  ids (filter (fun t => id t ≠ n) ts) = filter (fun i => i ≠ n) (ids ts).
Proof.
  unfold ids. induction ts as [|t ts IH]; [done|].
  rewrite fmap_cons, !filter_cons.
  destruct (decide (id t ≠ n)); by rewrite ?fmap_cons, IH.
Qed.

Lemma well_formed_nil : well_formed [].
Proof. split; constructor. Qed.

Lemma well_formed_add ts (d now : string) :
  well_formed ts -> well_formed (ts ++ [mkTask (getNextId ts) d "todo" now now]).
Proof.
  intros [Hnd Hpos]. unfold well_formed, ids in *. rewrite fmap_app. split.
  - apply NoDup_app. split; [done|]. split; [|apply NoDup_singleton].
    intros i Hi Hi'. apply list_elem_of_singleton in Hi'. cbn in Hi'. subst i.
    by apply (getNextId_fresh ts).
  - apply Forall_app. split; [done|].
    constructor; [apply getNextId_pos | constructor].
Qed.

Lemma well_formed_update ts (i : nat) (d now : string) :
  well_formed ts ->
  well_formed (alter (set_updatedAt now) i (alter (set_description d) i ts)).
Proof.
  unfold well_formed. by rewrite !ids_alter.
Qed.

Lemma well_formed_delete ts (n : Z) :
  well_formed ts -> well_formed (filter (fun t => id t ≠ n) ts).
Proof.
  intros [Hnd Hpos]. unfold well_formed. rewrite ids_filter_ne. split.
  - by apply NoDup_filter.
  - rewrite Forall_forall in Hpos |- *. intros i Hi.
    apply list_elem_of_filter in Hi as [_ Hi]. by apply Hpos.
Qed.

Lemma keeps_addTask (description : JS.arg) (now : string) :
  keeps (addTask description now).
Proof.
  intros w ts Hts Hwf. destruct (JS.truthy description) eqn:Hd.
  - rewrite (addTask_eq w ts _ _ Hts Hd). cbv zeta.
    destruct (write_error w).
    + by eexists _, _, ts.
    + eexists _, _, _. split; [done|].
      split; [apply stored_tasks_saved | by apply well_formed_add].
  - rewrite (addTask_no_description w _ _ Hd). by eexists _, _, ts.
Qed.

Lemma keeps_listTasks (statusFilter : JS.arg) : keeps (listTasks statusFilter).
Proof.
  apply keeps_unchanged. intros w ts Hts.
  rewrite (listTasks_eq w ts _ Hts). by eexists.
Qed.

Lemma keeps_updateTask (id_ newDescription : JS.arg) (now : string) :
  keeps (updateTask id_ newDescription now).
Proof.
  intros w ts Hts Hwf.
  destruct (JS.parseInt id_) as [n|] eqn:Hid.
  2:{ rewrite (updateTask_usage w ts _ _ _ Hts) by (by left). by eexists _, _, ts. }
  destruct (JS.truthy newDescription) eqn:Hd.
  2:{ rewrite (updateTask_usage w ts _ _ _ Hts) by (by right). by eexists _, _, ts. }
  rewrite (updateTask_eq w ts _ _ _ n Hts Hid Hd).
  destruct (findIndex _ ts) as [i|]; [|by eexists _, _, ts].
  cbv zeta. destruct (write_error w); [by eexists _, _, ts|].
  eexists _, _, _. split; [done|].
  split; [apply stored_tasks_saved | by apply well_formed_update].
Qed.

Lemma keeps_deleteTask (id_ : JS.arg) : keeps (deleteTask id_).
Proof.
  intros w ts Hts Hwf.
  destruct (JS.parseInt id_) as [n|] eqn:Hid.
  2:{ rewrite (deleteTask_usage w ts _ Hts Hid). by eexists _, _, ts. }
  rewrite (deleteTask_eq w ts _ n Hts Hid).
  case_bool_decide; [|by eexists _, _, ts].
  destruct (write_error w); [by eexists _, _, ts|].
  eexists _, _, _. split; [done|].
  split; [apply stored_tasks_saved | by apply well_formed_delete].
Qed.

Lemma keeps_main (COMMAND : JS.arg) (ARGS : list string) (now : string) :
  keeps (main COMMAND ARGS now).
Proof.
  unfold main.
  destruct (JS.truthy COMMAND); cbn [negb].
  2:{ apply keeps_unchanged. intros w ts _. by eexists. }
  cbv zeta.
  case_bool_decide; [apply keeps_addTask|].
  case_bool_decide; [apply keeps_listTasks|].
  case_bool_decide; [apply keeps_updateTask|].
  case_bool_decide; [apply keeps_deleteTask|].
  destruct (_ || _); apply keeps_unchanged; intros w ts _; by eexists.
Qed.

Lemma run_keeps (invs : list invocation) w ts :
  stored_tasks w = Some ts -> well_formed ts ->
  exists w' out ts',
    run invs w = Some (w', out) /\ stored_tasks w' = Some ts' /\ well_formed ts'.
Proof.
  revert w ts. induction invs as [|i invs IH]; intros w ts Hts Hwf.
  - by exists w, [], ts.
  - cbn [run].
    destruct (keeps_main (inv_command i) (inv_args i) (inv_now i)
                (mkWorld (file w) (inv_write_error i)) ts)
      as (w1 & out1 & ts1 & -> & Hts1 & Hwf1);
      [by rewrite stored_tasks_file | done |].
    destruct (IH w1 ts1 Hts1 Hwf1) as (w2 & out2 & ts2 & -> & Hts2 & Hwf2).
    by eexists _, _, ts2.
Qed.

End Invariant.

(** C2, as the script behaves.  Starting from an empty collection, any
    sequence of invocations (add, update, delete, the two mark commands,
    list, or anything else, with writes that succeed or fail) runs to the
    end and leaves a stored collection
    whose ids are pairwise distinct and positive; and an add run next gives
    the new task an id larger than every id then stored.  (An id whose task
    was deleted is not excluded from later use.) *)
Theorem reachable_ids_unique (w0 : world) (invs : list invocation) :
  stored_tasks w0 = Some [] ->
  exists w out ts,
    run invs w0 = Some (w, out) /\
    stored_tasks w = Some ts /\
    NoDup (ids ts) /\
    Forall (fun i => 1 <= i) (ids ts) /\
    (forall d now, d <> "" ->
       exists w' out' n,
         main (Some "add") [d] now w = Some (tt, w', out') /\
         assigned_ids out' = [n] /\
         (forall i, i ∈ ids ts -> i < n)).
Proof.
  intros H0.
  destruct (run_keeps invs w0 [] H0 well_formed_nil)
    as (w & out & ts & Hrun & Hts & Hnd & Hpos).
  exists w, out, ts. do 4 (split; [done|]).
  intros d now Hd. rewrite main_add.
  rewrite (addTask_eq w ts (Some d) now Hts) by (by destruct d).
  cbv zeta.
  assert (Hgt : forall i, i ∈ ids ts -> i < getNextId ts).
  { unfold ids. intros i Hi. apply list_elem_of_fmap in Hi as (t & -> & Ht).
    by apply getNextId_gt. }
  destruct (write_error w); eexists _, _, (getNextId ts);
    (split; [done|]); (split; [|done]);
    unfold assigned_ids; rewrite omap_app;
    fold (assigned_ids (load_output w)); by rewrite assigned_ids_load_output.
Qed.

Lemma reachable_ids_unique_witness :
  exists w out ts,
    run [mkInvocation (Some "add") ["buy milk"] "T1" None;
         mkInvocation (Some "delete") ["1"] "T2" None]
        (mkWorld Absent None) = Some (w, out) /\
    stored_tasks w = Some ts /\
    NoDup (ids ts) /\
    Forall (fun i => 1 <= i) (ids ts) /\
    (forall d now, d <> "" ->
       exists w' out' n,
         main (Some "add") [d] now w = Some (tt, w', out') /\
         assigned_ids out' = [n] /\
         (forall i, i ∈ ids ts -> i < n)).
Proof.
  apply (reachable_ids_unique (mkWorld Absent None)). reflexivity.
Defined.

(** C2, as stated, fails: after adding two tasks and deleting task 2, the
    next task added gets id 2 again. *)
Lemma deleted_id_is_assigned_again :
  exists w out,
    run reuse_run (mkWorld Absent None) = Some (w, out) /\
    out = [Log (Added 1); Log (Added 2); Log (Deleted 2); Log (Added 2)] /\
    stored_tasks w = Some [mkTask 1 "buy milk" "todo" "T1" "T1";
                           mkTask 2 "pay rent" "todo" "T4" "T4"] /\
    assigned_ids out = [1; 2; 2] /\
    ~ NoDup (assigned_ids out).
Proof.
  eexists _, _. split; [reflexivity|]. split; [reflexivity|].
  split; [reflexivity|]. split; [reflexivity|].
  cbn. intros H. apply NoDup_cons_1_2 in H. apply NoDup_cons_1_1 in H.
  apply H. by left.
Qed.

(** ** Deleting *)

Lemma filter_ne_middle (n : Z) (l1 l2 : list Task) (t : Task) :
  NoDup (ids (l1 ++ t :: l2)) -> id t = n ->
  filter (fun t' => id t' ≠ n) (l1 ++ t :: l2) = l1 ++ l2.
Proof.
  unfold ids. rewrite fmap_app, fmap_cons. intros Hnd Ht.
  apply NoDup_app in Hnd as (_ & Hl1 & Hnd).
  apply NoDup_cons in Hnd as (Hl2 & _).
  rewrite filter_app, filter_cons_False by (by intros H; apply H).
  rewrite !filter_ne_absent; [done | by rewrite <- Ht |].
  unfold ids. intros Hin. apply (Hl1 n Hin). rewrite Ht. by left.
Qed.

(** C7.  With an id argument that reads as the number [n], on a stored
    collection: if a task has id [n] (ids being pairwise distinct, and the
    write succeeding) the collection splits around that one task, the file
    afterwards holds the tasks before it followed by the tasks after it,
    unchanged and in the same order, and the deletion is confirmed; if [n]
    is a safe integer and no task has id [n] the not-found error is printed
    and the world, so the file, is left as it was. *)
Theorem deleteTask_removes_one (w : world) (ts : list Task) (id_ : JS.arg) (n : Z) :
  stored_tasks w = Some ts ->
  JS.parseInt id_ = Some n ->
  (n ∈ ids ts -> NoDup (ids ts) -> write_error w = None ->
   exists l1 t l2,
     ts = l1 ++ t :: l2 /\ id t = n /\
     deleteTask id_ w =
       Some (tt, mkWorld (Json (of_tasks (l1 ++ l2))) None,
             load_output w ++ [Log (Deleted n)]) /\
     stored_tasks (mkWorld (Json (of_tasks (l1 ++ l2))) None) = Some (l1 ++ l2)) /\
  (safe_integer n -> n ∉ ids ts ->
   deleteTask id_ w = Some (tt, w, load_output w ++ [Error (TaskNotFound n)])).
Proof.
  intros Hts Hid. rewrite (deleteTask_eq w ts id_ n Hts Hid). split.
  - intros Hin Hnd Hw. rewrite (bool_decide_eq_true_2 _ Hin), Hw.
    unfold ids in Hin. apply list_elem_of_fmap in Hin as (t & Ht & Hin).
    apply list_elem_of_split in Hin as (l1 & l2 & ->).
    exists l1, t, l2. rewrite (filter_ne_middle n l1 l2 t Hnd) by done.
    repeat split; [done|]. apply stored_tasks_saved.
  - intros _ Hin. by rewrite (bool_decide_eq_false_2 _ Hin).
Qed.

Lemma deleteTask_removes_one_witness :
  (exists l1 t l2,
     three_tasks = l1 ++ t :: l2 /\ id t = 2 /\
     deleteTask (Some "2") (mkWorld (Json (of_tasks three_tasks)) None) =
       Some (tt, mkWorld (Json (of_tasks (l1 ++ l2))) None, [Log (Deleted 2)]) /\
     stored_tasks (mkWorld (Json (of_tasks (l1 ++ l2))) None) = Some (l1 ++ l2)) /\
  deleteTask (Some "9") (mkWorld (Json (of_tasks three_tasks)) None) =
    Some (tt, mkWorld (Json (of_tasks three_tasks)) None, [Error (TaskNotFound 9)]).
Proof.
  split.
  - apply (proj1 (deleteTask_removes_one
             (mkWorld (Json (of_tasks three_tasks)) None) three_tasks
             (Some "2") 2 eq_refl eq_refl)).
    + compute_done.
    + compute_done.
    + reflexivity.
  - apply (proj2 (deleteTask_removes_one
             (mkWorld (Json (of_tasks three_tasks)) None) three_tasks
             (Some "9") 9 eq_refl eq_refl)).
    + unfold safe_integer, JS.MAX_SAFE_INTEGER. lia.
    + compute_done.
Defined.

(** ** Updating *)

(** C8.  On a stored collection, updating with an id argument that reads as
    a safe integer no task has, and a description, prints the not-found
    error and leaves the world, so the backing file, exactly as it was; and
    with such an id the world is left as it was whatever the description
    argument. *)
Theorem updateTask_unknown_id_unchanged (w : world) (ts : list Task)
    (id_ newDescription : JS.arg) (now : string) (n : Z) :
  stored_tasks w = Some ts ->
  JS.parseInt id_ = Some n ->
  safe_integer n ->
  n ∉ ids ts ->
  JS.truthy newDescription = true ->
  updateTask id_ newDescription now w =
    Some (tt, w, load_output w ++ [Error (TaskNotFound n)]) /\
  (forall d, world_after (updateTask id_ d now) w = Some w).
Proof.
  intros Hts Hid _ Hn Hd. split.
  - rewrite (updateTask_eq w ts _ _ _ n Hts Hid Hd).
    by rewrite (findIndex_None n ts Hn).
  - intros d. unfold world_after. destruct (JS.truthy d) eqn:Hd'.
    + rewrite (updateTask_eq w ts _ _ _ n Hts Hid Hd').
      by rewrite (findIndex_None n ts Hn).
    + by rewrite (updateTask_usage w ts _ _ _ Hts) by (by right).
Qed.

Lemma updateTask_unknown_id_unchanged_witness :
  updateTask (Some "9") (Some "pay rent today") "T6"
             (mkWorld (Json (of_tasks three_tasks)) None) =
    Some (tt, mkWorld (Json (of_tasks three_tasks)) None,
          [Error (TaskNotFound 9)]) /\
  (forall d,
     world_after (updateTask (Some "9") d "T6")
                 (mkWorld (Json (of_tasks three_tasks)) None) =
     Some (mkWorld (Json (of_tasks three_tasks)) None)).
Proof.
  apply (updateTask_unknown_id_unchanged
           (mkWorld (Json (of_tasks three_tasks)) None) three_tasks
           (Some "9") (Some "pay rent today") "T6" 9).
  - reflexivity.
  - reflexivity.
  - unfold safe_integer, JS.MAX_SAFE_INTEGER. lia.
  - compute_done.
  - reflexivity.
Defined.

(** *** Id arguments *)

Section IdArguments.

Lemma radix_digits_decimal (s : string) (acc : Z) :
  all_decimal_digits s = true ->
  fold_left (fun a d => a * 10 + d) (JS.radix_digits 10 s) acc = decimal_value acc s.
Proof.
  revert acc. induction s as [|c s IH]; intros acc; [done|].
  cbn [all_decimal_digits]. intros [Hc Hs]%andb_true_iff.
  cbn [JS.radix_digits decimal_value]. unfold JS.digit_value.
  unfold is_decimal_digit in Hc. rewrite Hc.
  apply andb_true_iff in Hc as [_ Hc%Z.leb_le].
  destruct (Z.ltb_spec (JS.code c - 48) 10) as [_|Hge]; [|lia].
  cbn [fold_left]. by apply IH.
Qed.

Lemma radix_digits_cons (c : ascii) (s : string) :
  is_decimal_digit c = true ->
  JS.radix_digits 10 (String c s) =
  (JS.code c - 48) :: JS.radix_digits 10 s.
Proof.
  intros Hc. cbn [JS.radix_digits]. unfold JS.digit_value.
  unfold is_decimal_digit in Hc. rewrite Hc.
  apply andb_true_iff in Hc as [_ Hc%Z.leb_le].
  by destruct (Z.ltb_spec (JS.code c - 48) 10) as [_|Hge]; [|lia].
Qed.

(** On a string that starts with a decimal digit, [parseInt] skips nothing,
    reads no sign, and reads no hexadecimal prefix unless the string starts
    with 0x or 0X. *)
Lemma parseInt_digit_first (c : ascii) (s : string) :
  is_decimal_digit c = true ->
  (forall c' s', s = String c' s' -> is_decimal_digit c' = true) ->
  JS.parseInt (Some (String c s)) =
  match JS.radix_digits 10 (String c s) with
  | [] => None
  | ds => Some (1 * JS.mathInt 10 ds)
  end.
Proof.
  intros Hc Hs.
  destruct c as [[] [] [] [] [] [] [] []]; try discriminate Hc; clear Hc;
    try reflexivity.
  destruct s as [|c' s']; [reflexivity|].
  specialize (Hs c' s' eq_refl).
  destruct c' as [[] [] [] [] [] [] [] []]; try discriminate Hs; reflexivity.
Qed.

(** A valid positive integer is read by [parseInt] as its value. *)
Lemma parseInt_positive_integer (x : JS.arg) (n : Z) :
  positive_integer x = Some n -> JS.parseInt x = Some n /\ 0 < n.
Proof.
  destruct x as [[|c s]|]; try discriminate. unfold positive_integer.
  destruct (all_decimal_digits (String c s)) eqn:Hall; [|discriminate].
  destruct (Z.ltb_spec 0 (decimal_value 0 (String c s))) as [Hpos|]; [|discriminate].
  cbn [andb]. intros [= <-]. split; [|done].
  pose proof Hall as Hall'.
  cbn [all_decimal_digits] in Hall'. apply andb_true_iff in Hall' as [Hc Hs].
  rewrite parseInt_digit_first; [|done|].
  - rewrite (radix_digits_cons c s Hc). cbv iota.
    rewrite <- (radix_digits_cons c s Hc). unfold JS.mathInt.
    rewrite (radix_digits_decimal _ 0 Hall).
    cbn [decimal_value]. f_equal. lia.
  - intros c' s' ->. cbn [all_decimal_digits] in Hs.
    by apply andb_true_iff in Hs as [Hc' _].
Qed.

End IdArguments.

(** C4, as the script behaves.  On a stored collection, update prints the
    usage error exactly when [parseInt] of the id argument is NaN or the
    description is missing or empty; otherwise it prints the not-found error,
    leaving the world as it was, when the number read is a safe integer that
    no task has; otherwise (the write succeeding) it replaces the
    description of the first task with that id, sets its updatedAt to the
    time of the call, leaves every other task and field as it was, saves and
    confirms.  An id argument that is a valid positive integer, up to
    [JS.MAX_SAFE_INTEGER], is read as its value. *)
Theorem updateTask_cases (w : world) (ts : list Task)
    (id_ newDescription : JS.arg) (now : string) :
  stored_tasks w = Some ts ->
  (JS.parseInt id_ = None \/ JS.truthy newDescription = false ->
   updateTask id_ newDescription now w =
     Some (tt, w, load_output w ++ [Error UpdateUsage])) /\
  (forall n,
     JS.parseInt id_ = Some n -> JS.truthy newDescription = true ->
     safe_integer n ->
     n ∉ ids ts ->
     updateTask id_ newDescription now w =
       Some (tt, w, load_output w ++ [Error (TaskNotFound n)])) /\
  (forall n l1 t l2,
     JS.parseInt id_ = Some n -> JS.truthy newDescription = true ->
     ts = l1 ++ t :: l2 -> id t = n -> n ∉ ids l1 ->
     write_error w = None ->
     updateTask id_ newDescription now w =
       Some (tt,
             mkWorld (Json (of_tasks
               (l1 ++ mkTask n (JS.ToString newDescription) (status t)
                             (createdAt t) now :: l2))) None,
             load_output w ++ [Log (Updated n)])) /\
  (forall n,
     positive_integer id_ = Some n -> n <= JS.MAX_SAFE_INTEGER ->
     JS.parseInt id_ = Some n /\ safe_integer n).
Proof.
  intros Hts. split; [|split; [|split]].
  - apply (updateTask_usage w ts _ _ _ Hts).
  - intros n Hid Hd _ Hn.
    rewrite (updateTask_eq w ts _ _ _ n Hts Hid Hd).
    by rewrite (findIndex_None n ts Hn).
  - intros n l1 t l2 Hid Hd -> Ht Hn Hw.
    rewrite (updateTask_eq w _ _ _ _ n Hts Hid Hd).
    rewrite (findIndex_first n l1 l2 t Hn Ht). cbv zeta. rewrite Hw.
    rewrite <- (Nat.add_0_r (length l1)), !alter_app_r. cbn.
    unfold set_updatedAt, set_description. cbn. by rewrite Ht.
  - intros n Hn Hmax.
    destruct (parseInt_positive_integer _ _ Hn) as [Hparse Hpos].
    split; [done|]. unfold safe_integer, JS.MAX_SAFE_INTEGER in *. lia.
Qed.

Lemma updateTask_cases_witness :
  updateTask (Some "two") (Some "call home tonight") "T6"
             (mkWorld (Json (of_tasks three_tasks)) None) =
    Some (tt, mkWorld (Json (of_tasks three_tasks)) None, [Error UpdateUsage]) /\
  updateTask (Some "9") (Some "call home tonight") "T6"
             (mkWorld (Json (of_tasks three_tasks)) None) =
    Some (tt, mkWorld (Json (of_tasks three_tasks)) None,
          [Error (TaskNotFound 9)]) /\
  updateTask (Some "2") (Some "call home tonight") "T6"
             (mkWorld (Json (of_tasks three_tasks)) None) =
    Some (tt,
          mkWorld (Json (of_tasks
            [mkTask 1 "buy milk" "todo" "T1" "T1";
             mkTask 2 "call home tonight" "in-progress" "T2" "T6";
             mkTask 3 "pay rent" "done" "T3" "T5"])) None,
          [Log (Updated 2)]) /\
  (JS.parseInt (Some "2") = Some 2 /\ safe_integer 2).
Proof.
  split; [|split; [|split]].
  - apply (proj1 (updateTask_cases
             (mkWorld (Json (of_tasks three_tasks)) None) three_tasks
             (Some "two") (Some "call home tonight") "T6" eq_refl)).
    left. reflexivity.
  - apply (proj1 (proj2 (updateTask_cases
             (mkWorld (Json (of_tasks three_tasks)) None) three_tasks
             (Some "9") (Some "call home tonight") "T6" eq_refl)) 9).
    + reflexivity.
    + reflexivity.
    + unfold safe_integer, JS.MAX_SAFE_INTEGER. lia.
    + compute_done.
  - apply (proj1 (proj2 (proj2 (updateTask_cases
             (mkWorld (Json (of_tasks three_tasks)) None) three_tasks
             (Some "2") (Some "call home tonight") "T6" eq_refl)))
           2 [mkTask 1 "buy milk" "todo" "T1" "T1"]
           (mkTask 2 "call home" "in-progress" "T2" "T4")
           [mkTask 3 "pay rent" "done" "T3" "T5"]).
    + reflexivity.
    + reflexivity.
    + reflexivity.
    + reflexivity.
    + compute_done.
    + reflexivity.
  - apply (proj2 (proj2 (proj2 (updateTask_cases
             (mkWorld (Json (of_tasks three_tasks)) None) three_tasks
             (Some "2") (Some "call home tonight") "T6" eq_refl))) 2).
    + reflexivity.
    + unfold JS.MAX_SAFE_INTEGER. lia.
Defined.

(** C4, as stated, fails: id arguments that are not valid positive integers
    are not rejected as invalid input.  With [0] and [-2] the command goes on
    to the search and prints the not-found error; with [2.5] and [2nd] it
    reads the number 2 and updates task 2. *)
Lemma updateTask_accepts_invalid_ids :
  let w := mkWorld (Json (of_tasks three_tasks)) None in
  let updated :=
    mkWorld (Json (of_tasks
      [mkTask 1 "buy milk" "todo" "T1" "T1";
       mkTask 2 "call home tonight" "in-progress" "T2" "T6";
       mkTask 3 "pay rent" "done" "T3" "T5"])) None in
  positive_integer (Some "0") = None /\
  updateTask (Some "0") (Some "call home tonight") "T6" w =
    Some (tt, w, [Error (TaskNotFound 0)]) /\
  positive_integer (Some "-2") = None /\
  updateTask (Some "-2") (Some "call home tonight") "T6" w =
    Some (tt, w, [Error (TaskNotFound (-2))]) /\
  positive_integer (Some "2.5") = None /\
  updateTask (Some "2.5") (Some "call home tonight") "T6" w =
    Some (tt, updated, [Log (Updated 2)]) /\
  positive_integer (Some "2nd") = None /\
  updateTask (Some "2nd") (Some "call home tonight") "T6" w =
    Some (tt, updated, [Log (Updated 2)]).
Proof. cbv zeta. repeat split. Qed.

(** ** Sample evaluations of [parseInt] *)

Example parseInt_plain : JS.parseInt (Some "42") = Some 42.
Proof. reflexivity. Qed.

Example parseInt_leading_space_and_suffix : JS.parseInt (Some "  12abc") = Some 12.
Proof. reflexivity. Qed.

Example parseInt_negative : JS.parseInt (Some "-7") = Some (-7).
Proof. reflexivity. Qed.

Example parseInt_hexadecimal : JS.parseInt (Some "0x1A") = Some 26.
Proof. reflexivity. Qed.

Example parseInt_not_a_number : JS.parseInt (Some "abc") = None.
Proof. reflexivity. Qed.

Example parseInt_empty : JS.parseInt (Some "") = None.
Proof. reflexivity. Qed.

Example parseInt_undefined : JS.parseInt None = None.
Proof. reflexivity. Qed.

(** ** Further properties of the script *)

(** *** [getNextId] on arbitrary collections *)

(** X1.  Whatever ids up to [JS.MAX_SAFE_INTEGER] the collection holds
    (also zero, negative or repeated ones), [getNextId] returns an id that
    is at least 1 and at most 2^53, larger than the id of every task, and so
    held by no task. *)
Theorem getNextId_positive_and_fresh (tasks : list Task) :
  Forall (fun t => id t <= JS.MAX_SAFE_INTEGER) tasks ->
  1 <= getNextId tasks <= JS.MAX_SAFE_INTEGER + 1 /\
  Forall (fun t => id t < getNextId tasks) tasks /\
  getNextId tasks ∉ ids tasks.
Proof.
  intros Hsafe. split; [|split; [|apply getNextId_fresh]].
  - split; [apply getNextId_pos|]. rewrite getNextId_eq.
    destruct (max_from_bounds tasks 0) as (_ & _ & [-> | Hin]).
    + unfold JS.MAX_SAFE_INTEGER. lia.
    + unfold ids in Hin. apply list_elem_of_fmap in Hin as (t & -> & Ht).
      rewrite Forall_forall in Hsafe. specialize (Hsafe t Ht). lia.
  - apply Forall_forall. intros t Ht. by apply getNextId_gt.
Qed.

Lemma getNextId_positive_and_fresh_witness :
  1 <= getNextId [mkTask (-4) "buy milk" "todo" "T1" "T1";
                  mkTask 7 "call home" "todo" "T2" "T2";
                  mkTask 7 "pay rent" "done" "T3" "T4"]
    <= JS.MAX_SAFE_INTEGER + 1 /\
  Forall (fun t => id t <
                   getNextId [mkTask (-4) "buy milk" "todo" "T1" "T1";
                              mkTask 7 "call home" "todo" "T2" "T2";
                              mkTask 7 "pay rent" "done" "T3" "T4"])
         [mkTask (-4) "buy milk" "todo" "T1" "T1";
          mkTask 7 "call home" "todo" "T2" "T2";
          mkTask 7 "pay rent" "done" "T3" "T4"] /\
  getNextId [mkTask (-4) "buy milk" "todo" "T1" "T1";
             mkTask 7 "call home" "todo" "T2" "T2";
             mkTask 7 "pay rent" "done" "T3" "T4"]
  ∉ ids [mkTask (-4) "buy milk" "todo" "T1" "T1";
         mkTask 7 "call home" "todo" "T2" "T2";
         mkTask 7 "pay rent" "done" "T3" "T4"].
Proof.
  apply (getNextId_positive_and_fresh
           [mkTask (-4) "buy milk" "todo" "T1" "T1";
            mkTask 7 "call home" "todo" "T2" "T2";
            mkTask 7 "pay rent" "done" "T3" "T4"]).
  unfold JS.MAX_SAFE_INTEGER. repeat constructor; cbn; lia.
Defined.

(** *** One invocation as a transition of the stored collection *)

Section Transitions.

Implicit Types (w : world) (ts : list Task) (n : Z).

Lemma truthy_ToString (x : JS.arg) :
  JS.truthy x = true -> x = Some (JS.ToString x) /\ JS.ToString x <> "".
Proof. by destruct x as [[|c s]|]. Qed.

Lemma findIndex_Some_split n ts (i : nat) :
  findIndex (fun t => id t = n) ts = Some i ->
  exists l1 t l2,
    ts = l1 ++ t :: l2 /\ id t = n /\ (n ∉ ids l1) /\ i = length l1.
Proof.
  unfold findIndex. destruct (list_find _ ts) as [[j t]|] eqn:E; [|done].
  intros [= ->]. apply list_find_Some in E as (Hi & Ht & Hbefore).
  exists (take i ts), t, (drop (S i) ts).
  split; [by rewrite (take_drop_middle ts i t Hi)|]. split; [done|]. split.
  - unfold ids. intros Hin. apply list_elem_of_fmap in Hin as (t' & Hid & Hin).
    apply list_elem_of_lookup in Hin as (j & Hj).
    apply lookup_take_Some in Hj as (Hj & Hlt).
    by apply (Hbefore j t' Hj Hlt).
  - rewrite length_take. apply lookup_lt_Some in Hi. lia.
Qed.

Lemma alter_update_middle (l1 l2 : list Task) (t : Task) (d now : string) :
  alter (set_updatedAt now) (length l1)
        (alter (set_description d) (length l1) (l1 ++ t :: l2)) =
  l1 ++ mkTask (id t) d (status t) (createdAt t) now :: l2.
Proof.
  rewrite <- (Nat.add_0_r (length l1)), !alter_app_r. done.
Qed.

Lemma transits_unchanged (m : M unit) :
  (forall w ts, stored_tasks w = Some ts -> exists out, m w = Some (tt, w, out)) ->
  transits m.
Proof.
  intros Hm w ts Hts. destruct (Hm w ts Hts) as (out & Hout).
  exists w, out, ts. split; [done|]. split; [done|].
  split; [constructor | by left].
Qed.

Lemma transits_addTask (description : JS.arg) (now : string) :
  transits (addTask description now).
Proof.
  intros w ts Hts. destruct (JS.truthy description) eqn:Hd.
  - rewrite (addTask_eq w ts _ _ Hts Hd). cbv zeta.
    destruct (truthy_ToString _ Hd) as [_ Hne].
    destruct (write_error w) eqn:Hw.
    + eexists w, _, ts. split; [done|]. split; [done|].
      split; [constructor | by left].
    + eexists _, _, _. split; [done|].
      split; [apply stored_tasks_saved|].
      split; [by constructor | by right].
  - rewrite (addTask_no_description w _ _ Hd).
    eexists w, _, ts. split; [done|]. split; [done|].
    split; [constructor | by left].
Qed.

Lemma transits_listTasks (statusFilter : JS.arg) : transits (listTasks statusFilter).
Proof.
  apply transits_unchanged. intros w ts Hts.
  rewrite (listTasks_eq w ts _ Hts). by eexists.
Qed.

Lemma transits_updateTask (id_ newDescription : JS.arg) (now : string) :
  transits (updateTask id_ newDescription now).
Proof.
  intros w ts Hts.
  assert (Hsame : forall out : list output,
            exists w' out' ts',
              Some (tt, w, out) = Some (tt, w', out') /\
              stored_tasks w' = Some ts' /\ step ts ts' /\
              (w' = w \/
               (write_error w = None /\ w' = mkWorld (Json (of_tasks ts')) None))).
  { intros out. exists w, out, ts. split; [done|]. split; [done|].
    split; [constructor | by left]. }
  destruct (JS.parseInt id_) as [n|] eqn:Hid.
  2:{ rewrite (updateTask_usage w ts _ _ _ Hts) by (by left). apply Hsame. }
  destruct (JS.truthy newDescription) eqn:Hd.
  2:{ rewrite (updateTask_usage w ts _ _ _ Hts) by (by right). apply Hsame. }
  rewrite (updateTask_eq w ts _ _ _ n Hts Hid Hd).
  destruct (findIndex _ ts) as [i|] eqn:Hfind; [|apply Hsame].
  cbv zeta. destruct (write_error w) eqn:Hw; [apply Hsame|].
  apply findIndex_Some_split in Hfind as (l1 & t & l2 & -> & Ht & Hl1 & ->).
  rewrite alter_update_middle.
  destruct (truthy_ToString _ Hd) as [_ Hne].
  eexists _, _, _. split; [done|]. split; [apply stored_tasks_saved|].
  split; [|by right].
  apply step_updated; [done | done | by rewrite Ht].
Qed.

Lemma transits_deleteTask (id_ : JS.arg) : transits (deleteTask id_).
Proof.
  intros w ts Hts.
  destruct (JS.parseInt id_) as [n|] eqn:Hid.
  2:{ rewrite (deleteTask_usage w ts _ Hts Hid).
      eexists w, _, ts. split; [done|]. split; [done|].
      split; [constructor | by left]. }
  rewrite (deleteTask_eq w ts _ n Hts Hid).
  case_bool_decide as Hin.
  2:{ eexists w, _, ts. split; [done|]. split; [done|].
      split; [constructor | by left]. }
  destruct (write_error w) eqn:Hw.
  - eexists w, _, ts. split; [done|]. split; [done|].
    split; [constructor | by left].
  - eexists _, _, _. split; [done|]. split; [apply stored_tasks_saved|].
    split; [by constructor | by right].
Qed.

Lemma transits_main (COMMAND : JS.arg) (ARGS : list string) (now : string) :
  transits (main COMMAND ARGS now).
Proof.
  unfold main.
  destruct (JS.truthy COMMAND); cbn [negb].
  2:{ apply transits_unchanged. intros w ts _. by eexists. }
  cbv zeta.
  case_bool_decide; [apply transits_addTask|].
  case_bool_decide; [apply transits_listTasks|].
  case_bool_decide; [apply transits_updateTask|].
  case_bool_decide; [apply transits_deleteTask|].
  destruct (_ || _); apply transits_unchanged; intros w ts _; by eexists.
Qed.

End Transitions.



(** *** Invariants of the collections reachable from the empty one *)

Section Reachable.

Implicit Types (w : world) (ts : list Task).

(** A property of collections kept by every [step] is kept by every run. *)
Lemma run_invariant (I : list Task -> Prop) :
  (forall ts ts', step ts ts' -> I ts -> I ts') ->
  forall invs w ts,
    stored_tasks w = Some ts -> I ts ->
    exists w' out ts',
      run invs w = Some (w', out) /\ stored_tasks w' = Some ts' /\ I ts'.
Proof.
  intros Hstep invs. induction invs as [|i invs IH]; intros w ts Hts HI.
  - by exists w, [], ts.
  - cbn [run].
    destruct (transits_main (inv_command i) (inv_args i) (inv_now i)
                (mkWorld (file w) (inv_write_error i)) ts)
      as (w1 & out1 & ts1 & -> & Hts1 & Hst & _);
      [by rewrite stored_tasks_file|].
    destruct (IH w1 ts1 Hts1 (Hstep ts ts1 Hst HI))
      as (w2 & out2 & ts2 & -> & Hts2 & HI2).
    by eexists _, _, ts2.
Qed.

Lemma StronglySorted_filter {A : Type} (R : relation A) (P : A -> Prop)
    `{forall x, Decision (P x)} (l : list A) :
  StronglySorted R l -> StronglySorted R (filter P l).
Proof.
  induction 1 as [|x l Hl IH Hx]; [constructor|].
  rewrite filter_cons. destruct (decide (P x)); [|done].
  constructor; [done|].
  rewrite Forall_forall in Hx |- *. intros y Hy.
  apply list_elem_of_filter in Hy as [_ Hy]. by apply Hx.
Qed.

Lemma step_increasing_ids ts ts' :
  step ts ts' -> increasing_ids ts -> increasing_ids ts'.
Proof.
  unfold increasing_ids. intros Hstep Hs.
  destruct Hstep as [|d now _|l1 l2 t d now -> _ _|n _].
  - done.
  - unfold ids in *. rewrite fmap_app. apply StronglySorted_app_2; [|done|].
    + intros x1 x2 Hx1 Hx2. apply list_elem_of_singleton in Hx2 as ->.
      apply list_elem_of_fmap in Hx1 as (t & -> & Ht). by apply getNextId_gt.
    + repeat constructor.
  - unfold ids in *. by rewrite fmap_app, fmap_cons in *.
  - rewrite ids_filter_ne. by apply StronglySorted_filter.
Qed.

Lemma step_status_todo ts ts' :
  step ts ts' ->
  Forall (fun t => status t = "todo") ts ->
  Forall (fun t => status t = "todo") ts'.
Proof.
  intros Hstep Hs.
  destruct Hstep as [|d now _|l1 l2 t d now -> _ _|n _].
  - done.
  - apply Forall_app. split; [done|]. by repeat constructor.
  - apply Forall_app in Hs as [H1 H2]. apply Forall_cons in H2 as [Ht H2].
    apply Forall_app. split; [done|]. by constructor.
  - rewrite Forall_forall in Hs |- *. intros t Ht.
    apply list_elem_of_filter in Ht as [_ Ht]. by apply Hs.
Qed.

Lemma step_description_nonempty ts ts' :
  step ts ts' ->
  Forall (fun t => description t <> "") ts ->
  Forall (fun t => description t <> "") ts'.
Proof.
  intros Hstep Hs.
  destruct Hstep as [|d now Hd|l1 l2 t d now -> Hd _|n _].
  - done.
  - apply Forall_app. split; [done|]. by repeat constructor.
  - apply Forall_app in Hs as [H1 H2]. apply Forall_cons in H2 as [Ht H2].
    apply Forall_app. split; [done|]. by constructor.
  - rewrite Forall_forall in Hs |- *. intros t Ht.
    apply list_elem_of_filter in Ht as [_ Ht]. by apply Hs.
Qed.

End Reachable.

(** X3.  Starting from an empty collection, after any sequence of
    invocations the ids of the stored tasks are strictly increasing along
    the stored order: every task has a larger id than the tasks before it. *)
Theorem reachable_ids_increasing (w0 : world) (invs : list invocation) :
  stored_tasks w0 = Some [] ->
  exists w out ts,
    run invs w0 = Some (w, out) /\
    stored_tasks w = Some ts /\
    StronglySorted Z.lt (ids ts).
Proof.
  intros H0.
  apply (run_invariant increasing_ids step_increasing_ids invs w0 [] H0).
  constructor.
Qed.

Lemma reachable_ids_increasing_witness :
  exists w out ts,
    run reuse_run (mkWorld ZeroLength None) = Some (w, out) /\
    stored_tasks w = Some ts /\
    StronglySorted Z.lt (ids ts).
Proof.
  apply (reachable_ids_increasing (mkWorld ZeroLength None) reuse_run).
  reflexivity.
Defined.

(** X4.  Starting from an empty collection, after any sequence of
    invocations every stored task still has the status todo, since no
    command of the script sets another status; so listing with the filter
    done or in-progress never displays a task. *)
Theorem reachable_status_todo (w0 : world) (invs : list invocation) :
  stored_tasks w0 = Some [] ->
  exists w out ts,
    run invs w0 = Some (w, out) /\
    stored_tasks w = Some ts /\
    Forall (fun t => status t = "todo") ts /\
    (forall f, f = "done" \/ f = "in-progress" ->
       exists out', listTasks (Some f) w = Some (tt, w, out') /\
                    displayed out' = []).
Proof.
  intros H0.
  destruct (run_invariant (Forall (fun t => status t = "todo"))
              step_status_todo invs w0 [] H0)
    as (w & out & ts & Hrun & Hts & Htodo); [constructor|].
  exists w, out, ts. do 3 (split; [done|]).
  intros f Hf. eexists. split; [apply (listTasks_eq w ts _ Hts)|].
  cbv zeta.
  assert (Hnone : filter (fun t => status t = f) ts = []).
  { clear Hts Hrun. induction Htodo as [|t ts Ht _ IH]; [done|].
    rewrite filter_cons_False; [done|].
    rewrite Ht. by destruct Hf as [-> | ->]. }
  unfold displayed. rewrite omap_app. fold (displayed (load_output w)).
  rewrite displayed_load_output, app_nil_l.
  case_bool_decide; [done|].
  assert (JS.toLowerCase (JS.or_default (Some f) "all") = f) as ->.
  { by destruct Hf as [-> | ->]. }
  rewrite (bool_decide_eq_false_2 (f = "all")).
  2:{ by destruct Hf as [-> | ->]. }
  rewrite (bool_decide_eq_true_2 (f ∈ validStatuses)).
  2:{ destruct Hf as [-> | ->]; compute_done. }
  by rewrite Hnone.
Qed.

Lemma reachable_status_todo_witness :
  exists w out ts,
    run [mkInvocation (Some "add") ["buy milk"] "T1" None;
         mkInvocation (Some "mark-done") ["1"] "T2" None]
        (mkWorld Absent None) = Some (w, out) /\
    stored_tasks w = Some ts /\
    Forall (fun t => status t = "todo") ts /\
    (forall f, f = "done" \/ f = "in-progress" ->
       exists out', listTasks (Some f) w = Some (tt, w, out') /\
                    displayed out' = []).
Proof.
  apply (reachable_status_todo (mkWorld Absent None)). reflexivity.
Defined.

(** X5.  Starting from an empty collection, after any sequence of
    invocations every stored task has a non-empty description: [addTask] and
    [updateTask] refuse a missing or empty description before they store
    anything. *)
Theorem reachable_descriptions_nonempty (w0 : world) (invs : list invocation) :
  stored_tasks w0 = Some [] ->
  exists w out ts,
    run invs w0 = Some (w, out) /\
    stored_tasks w = Some ts /\
    Forall (fun t => description t <> "") ts.
Proof.
  intros H0.
  apply (run_invariant (Forall (fun t => description t <> ""))
           step_description_nonempty invs w0 [] H0).
  constructor.
Qed.

Lemma reachable_descriptions_nonempty_witness :
  exists w out ts,
    run [mkInvocation (Some "add") ["buy milk"] "T1" None;
         mkInvocation (Some "update") ["1"; ""] "T2" None;
         mkInvocation (Some "add") [""] "T3" None]
        (mkWorld Absent None) = Some (w, out) /\
    stored_tasks w = Some ts /\
    Forall (fun t => description t <> "") ts.
Proof.
  apply (reachable_descriptions_nonempty (mkWorld Absent None)). reflexivity.
Defined.

(** *** Which commands write, and when *)

Section Writing.

Implicit Types (w : world) (ts : list Task) (n : Z).

Lemma main_update (a b : JS.arg) (ARGS : list string) (now : string) w :
  ARGS !! 0%nat = a -> ARGS !! 1%nat = b ->
  main (Some "update") ARGS now w = updateTask a b now w.
Proof. by intros <- <-. Qed.

Lemma main_delete (a : JS.arg) (ARGS : list string) (now : string) w :
  ARGS !! 0%nat = a ->
  main (Some "delete") ARGS now w = deleteTask a w.
Proof. by intros <-. Qed.

Lemma main_list (a : JS.arg) (ARGS : list string) (now : string) w :
  ARGS !! 0%nat = a ->
  main (Some "list") ARGS now w = listTasks a w.
Proof. by intros <-. Qed.

(** On an empty stored collection every command but add leaves the world
    as it was. *)
Lemma empty_store_unchanged w (c : string) (ARGS : list string) (now : string) :
  stored_tasks w = Some [] -> c <> "add" ->
  world_after (main (Some c) ARGS now) w = Some w.
Proof.
  intros Hts Hc. unfold world_after, main.
  destruct (JS.truthy (Some c)); cbn [negb]; [|done].
  cbv zeta. cbn [JS.ToString].
  rewrite (bool_decide_eq_false_2 _ Hc).
  case_bool_decide; [by rewrite (listTasks_eq w [] _ Hts)|].
  case_bool_decide.
  { destruct (JS.parseInt (ARGS !! 0%nat)) as [n|] eqn:Hid.
    2:{ by rewrite (updateTask_usage w [] _ _ _ Hts) by (by left). }
    destruct (JS.truthy (ARGS !! 1%nat)) eqn:Hd.
    2:{ by rewrite (updateTask_usage w [] _ _ _ Hts) by (by right). }
    by rewrite (updateTask_eq w [] _ _ _ n Hts Hid Hd). }
  case_bool_decide.
  { destruct (JS.parseInt (ARGS !! 0%nat)) as [n|] eqn:Hid.
    - by rewrite (deleteTask_eq w [] _ n Hts Hid).
    - by rewrite (deleteTask_usage w [] _ Hts Hid). }
  by destruct (_ || _).
Qed.

End Writing.



(** X7.  Only add, update and delete can change the file: on a stored
    collection, an invocation with any other command (list, the two mark
    commands, an unknown command) returns the world it was given. *)
Theorem other_commands_never_write (c : string) (ARGS : list string)
    (now : string) (w : world) (ts : list Task) :
  stored_tasks w = Some ts ->
  (c ∉ writing_commands) ->
  world_after (main (Some c) ARGS now) w = Some w.
Proof.
  intros Hts Hc. unfold writing_commands in Hc.
  rewrite !not_elem_of_cons in Hc. destruct Hc as (Hadd & Hupd & Hdel & _).
  unfold world_after, main.
  destruct (JS.truthy (Some c)); cbn [negb]; [|done].
  cbv zeta. cbn [JS.ToString].
  rewrite (bool_decide_eq_false_2 _ Hadd).
  case_bool_decide; [by rewrite (listTasks_eq w ts _ Hts)|].
  rewrite (bool_decide_eq_false_2 _ Hupd), (bool_decide_eq_false_2 _ Hdel).
  by destruct (_ || _).
Qed.

Lemma other_commands_never_write_witness :
  world_after (main (Some "list") ["done"] "T6")
              (mkWorld (Json (of_tasks three_tasks)) None) =
    Some (mkWorld (Json (of_tasks three_tasks)) None).
Proof.
  apply (other_commands_never_write "list" ["done"] "T6"
           (mkWorld (Json (of_tasks three_tasks)) None) three_tasks).
  - reflexivity.
  - compute_done.
Defined.

(** X8.  A command name that is not exactly one of add, list, update,
    delete, mark-in-progress and mark-done (names are case sensitive) makes
    [main] print the unknown-command error followed by the help text; with
    no command, or an empty one, only the help text is printed.  In both
    cases the file is not even read and the world is returned as it was,
    whatever the file holds. *)
Theorem main_unknown_command (c : string) (ARGS : list string) (now : string)
    (w : world) :
  c <> "" ->
  (c ∉ known_commands) ->
  main (Some c) ARGS now w = Some (tt, w, [Error (UnknownCommand c); Log Help]) /\
  main None ARGS now w = Some (tt, w, [Log Help]) /\
  main (Some "") ARGS now w = Some (tt, w, [Log Help]).
Proof.
  intros Hne Hc. split; [|done].
  unfold known_commands in Hc. rewrite !not_elem_of_cons in Hc.
  destruct Hc as (H1 & H2 & H3 & H4 & H5 & H6 & _).
  unfold main. destruct c as [|a c]; [done|].
  cbn [JS.truthy negb JS.ToString]. cbv zeta.
  rewrite (bool_decide_eq_false_2 _ H1), (bool_decide_eq_false_2 _ H2),
    (bool_decide_eq_false_2 _ H3), (bool_decide_eq_false_2 _ H4),
    (bool_decide_eq_false_2 _ H5), (bool_decide_eq_false_2 _ H6).
  reflexivity.
Qed.

Lemma main_unknown_command_witness :
  main (Some "ADD") ["buy milk"] "T1" (mkWorld (Json (JObj [])) None) =
    Some (tt, mkWorld (Json (JObj [])) None,
          [Error (UnknownCommand "ADD"); Log Help]) /\
  main None ["buy milk"] "T1" (mkWorld (Json (JObj [])) None) =
    Some (tt, mkWorld (Json (JObj [])) None, [Log Help]) /\
  main (Some "") ["buy milk"] "T1" (mkWorld (Json (JObj [])) None) =
    Some (tt, mkWorld (Json (JObj [])) None, [Log Help]).
Proof.
  apply (main_unknown_command "ADD" ["buy milk"] "T1"
           (mkWorld (Json (JObj [])) None)).
  - discriminate.
  - compute_done.
Defined.

(** *** Missing arguments, empty and corrupt stores *)

(** X9.  Invoked without their arguments the three writing commands only
    print an error and leave the world as it was.  [add] with no or an empty
    description prints the description-required error without reading the
    file, whatever it holds; [update] with no id, or with an id and no
    description, and [delete] with no id first load the store (so a corrupt
    file is reported first) and then print their usage error. *)
Theorem main_missing_arguments (now : string) (w : world) (ts : list Task) :
  stored_tasks w = Some ts ->
  (forall w', main (Some "add") [] now w' =
                Some (tt, w', [Error DescriptionRequired])) /\
  (forall w', main (Some "add") [""] now w' =
                Some (tt, w', [Error DescriptionRequired])) /\
  main (Some "update") [] now w =
    Some (tt, w, load_output w ++ [Error UpdateUsage]) /\
  (forall s, main (Some "update") [s] now w =
               Some (tt, w, load_output w ++ [Error UpdateUsage])) /\
  main (Some "delete") [] now w =
    Some (tt, w, load_output w ++ [Error DeleteUsage]).
Proof.
  intros Hts. split; [done|]. split; [done|]. split; [|split].
  - rewrite (main_update None None) by done.
    apply (updateTask_usage w ts _ _ _ Hts). by left.
  - intros s. rewrite (main_update (Some s) None) by done.
    apply (updateTask_usage w ts _ _ _ Hts). by right.
  - rewrite (main_delete None) by done.
    by apply (deleteTask_usage w ts).
Qed.

Lemma main_missing_arguments_witness :
  main (Some "update") ["2"] "T6" (mkWorld (Malformed "Unexpected end") None) =
    Some (tt, mkWorld (Malformed "Unexpected end") None,
          [Error (CorruptFile "Unexpected end"); Error UpdateUsage]) /\
  main (Some "delete") [] "T6" (mkWorld (Malformed "Unexpected end") None) =
    Some (tt, mkWorld (Malformed "Unexpected end") None,
          [Error (CorruptFile "Unexpected end"); Error DeleteUsage]).
Proof.
  split.
  - apply (proj1 (proj2 (proj2 (proj2 (main_missing_arguments "T6"
             (mkWorld (Malformed "Unexpected end") None) [] eq_refl)))) "2").
  - apply (proj2 (proj2 (proj2 (proj2 (main_missing_arguments "T6"
             (mkWorld (Malformed "Unexpected end") None) [] eq_refl))))).
Defined.

(** X10.  On an empty stored collection (no file, an empty file, a file
    that cannot be read or parsed, or an empty array) only add writes: every
    other command leaves the world as it was, so no file is created;
    listing prints that there are no tasks whatever the filter, and update
    and delete with a numeric id print the not-found error. *)
Theorem empty_store_only_add_writes (w : world) :
  stored_tasks w = Some [] ->
  (forall c ARGS now, c <> "add" ->
     world_after (main (Some c) ARGS now) w = Some w) /\
  (forall f, listTasks f w = Some (tt, w, load_output w ++ [Log NoTasks])) /\
  (forall id_ d now n,
     JS.parseInt id_ = Some n -> JS.truthy d = true ->
     updateTask id_ d now w =
       Some (tt, w, load_output w ++ [Error (TaskNotFound n)])) /\
  (forall id_ n,
     JS.parseInt id_ = Some n ->
     deleteTask id_ w = Some (tt, w, load_output w ++ [Error (TaskNotFound n)])).
Proof.
  intros Hts. split; [|split; [|split]].
  - intros c ARGS now Hc. by apply empty_store_unchanged.
  - intros f. by rewrite (listTasks_eq w [] f Hts).
  - intros id_ d now n Hid Hd.
    by rewrite (updateTask_eq w [] _ _ _ n Hts Hid Hd).
  - intros id_ n Hid. by rewrite (deleteTask_eq w [] _ n Hts Hid).
Qed.

Lemma empty_store_only_add_writes_witness :
  world_after (main (Some "delete") ["1"] "T1") (mkWorld Absent None) =
    Some (mkWorld Absent None) /\
  listTasks (Some "bogus") (mkWorld Absent None) =
    Some (tt, mkWorld Absent None, [Log NoTasks]) /\
  deleteTask (Some "1") (mkWorld Absent None) =
    Some (tt, mkWorld Absent None, [Error (TaskNotFound 1)]).
Proof.
  split; [|split].
  - apply (proj1 (empty_store_only_add_writes (mkWorld Absent None) eq_refl)).
    discriminate.
  - apply (proj1 (proj2 (empty_store_only_add_writes
                           (mkWorld Absent None) eq_refl))).
  - apply (proj2 (proj2 (proj2 (empty_store_only_add_writes
                                  (mkWorld Absent None) eq_refl)))).
    reflexivity.
Defined.

(** X11.  A file that is not JSON text is treated as an empty collection and
    reported as corrupt by every command that loads it.  Every command but
    add leaves the file as it is; add with a description, when the write
    succeeds, replaces the file by a collection holding only the new task,
    with id 1. *)
Theorem corrupt_file_replaced_by_add (w : world) (msg : string) :
  file w = Malformed msg ->
  stored_tasks w = Some [] /\
  load_output w = [Error (CorruptFile msg)] /\
  (forall c ARGS now, c <> "add" ->
     world_after (main (Some c) ARGS now) w = Some w) /\
  (forall d now, d <> "" -> write_error w = None ->
     main (Some "add") [d] now w =
       Some (tt, mkWorld (Json (of_tasks [mkTask 1 d "todo" now now])) None,
             [Error (CorruptFile msg); Log (Added 1)])).
Proof.
  intros Hf.
  assert (Hts : stored_tasks w = Some []).
  { unfold stored_tasks, loadTasks. rewrite bind_eq. unfold observe_file.
    by rewrite Hf. }
  assert (Hout : load_output w = [Error (CorruptFile msg)]).
  { unfold load_output, loadTasks. rewrite bind_eq. unfold observe_file.
    by rewrite Hf. }
  split; [done|]. split; [done|]. split.
  - intros c ARGS now Hc. by apply empty_store_unchanged.
  - intros d now Hd Hw. rewrite main_add.
    rewrite (addTask_eq w [] (Some d) now Hts) by (by destruct d).
    cbv zeta. by rewrite Hw, Hout.
Qed.

Lemma corrupt_file_replaced_by_add_witness :
  world_after (main (Some "list") [] "T1")
              (mkWorld (Malformed "Unexpected token") None) =
    Some (mkWorld (Malformed "Unexpected token") None) /\
  main (Some "add") ["buy milk"] "T1"
       (mkWorld (Malformed "Unexpected token") None) =
    Some (tt,
          mkWorld (Json (of_tasks [mkTask 1 "buy milk" "todo" "T1" "T1"])) None,
          [Error (CorruptFile "Unexpected token"); Log (Added 1)]).
Proof.
  split.
  - apply (proj1 (proj2 (proj2 (corrupt_file_replaced_by_add
             (mkWorld (Malformed "Unexpected token") None)
             "Unexpected token" eq_refl)))).
    discriminate.
  - apply (proj2 (proj2 (proj2 (corrupt_file_replaced_by_add
             (mkWorld (Malformed "Unexpected token") None)
             "Unexpected token" eq_refl)))).
    + discriminate.
    + reflexivity.
Defined.

(** X12.  On a non-empty stored collection, listing with a status filter
    (in any letter case) that no task has prints the single line saying
    that there are no tasks with that status, naming the status in lower
    case, and prints neither header nor footer; when some task has the
    status the lines are the header, one row for each such task in stored
    order, and the footer. *)
Theorem listTasks_status_output (w : world) (ts : list Task) (f : string) :
  stored_tasks w = Some ts ->
  ts <> [] ->
  JS.toLowerCase f ∈ validStatuses ->
  (Forall (fun t => status t <> JS.toLowerCase f) ts ->
   listTasks (Some f) w =
     Some (tt, w, load_output w ++ [Log (NoTasksWithStatus (JS.toLowerCase f))])) /\
  (Exists (fun t => status t = JS.toLowerCase f) ts ->
   listTasks (Some f) w =
     Some (tt, w,
           load_output w ++ [Log ListHeader] ++
           rows (filter (fun t => status t = JS.toLowerCase f) ts) ++
           [Log ListFooter])).
Proof.
  intros Hts Hne Hf.
  assert (Hdef : JS.or_default (Some f) "all" = f).
  { destruct f; [|done]. revert Hf. compute_done. }
  assert (Hall : JS.toLowerCase f <> "all").
  { intros Heq. rewrite Heq in Hf. revert Hf. compute_done. }
  rewrite (listTasks_eq w ts _ Hts). cbv zeta. rewrite Hdef.
  rewrite (bool_decide_eq_false_2 _ Hne), (bool_decide_eq_false_2 _ Hall),
    (bool_decide_eq_true_2 _ Hf).
  split.
  - intros Hno.
    assert (filter (fun t => status t = JS.toLowerCase f) ts = []) as ->; [|done].
    clear Hts Hne. induction Hno as [|t ts Ht _ IH]; [done|].
    by rewrite filter_cons_False.
  - intros Hsome. rewrite bool_decide_eq_false_2; [done|].
    intros Hnil. apply Exists_exists in Hsome as (t & Ht & Hst).
    assert (Hin : t ∈ filter (fun t => status t = JS.toLowerCase f) ts).
    { by apply list_elem_of_filter. }
    rewrite Hnil in Hin. by apply elem_of_nil in Hin.
Qed.

Lemma listTasks_status_output_witness :
  listTasks (Some "In-Progress") (mkWorld (Json (of_tasks three_tasks)) None) =
    Some (tt, mkWorld (Json (of_tasks three_tasks)) None,
          [Log ListHeader;
           Log (TaskRow (mkTask 2 "call home" "in-progress" "T2" "T4"));
           Log ListFooter]) /\
  listTasks (Some "DONE") sample_world =
    Some (tt, sample_world, [Log (NoTasksWithStatus "done")]).
Proof.
  split.
  - apply (proj2 (listTasks_status_output
             (mkWorld (Json (of_tasks three_tasks)) None) three_tasks
             "In-Progress" eq_refl ltac:(discriminate) ltac:(compute_done))).
    apply Exists_cons_tl, Exists_cons_hd. reflexivity.
  - apply (proj1 (listTasks_status_output sample_world [sample_task] "DONE"
             eq_refl ltac:(discriminate) ltac:(compute_done))).
    repeat constructor. discriminate.
Defined.

(** *** How the commands compose *)

Section Composition.

Implicit Types (w : world) (ts : list Task) (n : Z).




Lemma not_in_ids_filter n ts : n ∉ ids (filter (fun t => id t ≠ n) ts).
Proof.
  rewrite ids_filter_ne. intros Hin.
  apply list_elem_of_filter in Hin as [Hne _]. by apply Hne.
Qed.

Lemma filter_added n ts (t : Task) :
  (n ∉ ids ts) -> id t = n -> filter (fun t' => id t' ≠ n) (ts ++ [t]) = ts.
Proof.
  intros Hn Ht. rewrite filter_app, (filter_ne_absent n ts Hn).
  rewrite filter_cons_False by (by intros H; apply H). by rewrite app_nil_r.
Qed.

End Composition.

(** X13.  On a stored collection whose ids are below
    [JS.MAX_SAFE_INTEGER], the id an add assigns is a safe integer; adding a
    task and then deleting the id just assigned gives back the stored
    collection as it was before; an add run after that is given the same id
    again.  (Writes succeed.) *)
Theorem add_then_delete_restores (w : world) (ts : list Task)
    (d now : string) (id_ : JS.arg) :
  stored_tasks w = Some ts ->
  Forall (fun t => id t < JS.MAX_SAFE_INTEGER) ts ->
  write_error w = None ->
  d <> "" ->
  JS.parseInt id_ = Some (getNextId ts) ->
  exists w1 w2,
    safe_integer (getNextId ts) /\
    addTask (Some d) now w =
      Some (tt, w1, load_output w ++ [Log (Added (getNextId ts))]) /\
    deleteTask id_ w1 = Some (tt, w2, [Log (Deleted (getNextId ts))]) /\
    stored_tasks w2 = Some ts /\
    (forall d' now', d' <> "" ->
       exists w3, addTask (Some d') now' w2 =
                    Some (tt, w3, [Log (Added (getNextId ts))])).
Proof.
  intros Hts Hsafe Hw Hd Hid.
  set (t := mkTask (getNextId ts) d "todo" now now).
  exists (mkWorld (Json (of_tasks (ts ++ [t]))) None),
         (mkWorld (Json (of_tasks ts)) None).
  split; [|split; [|split; [|split]]].
  - pose proof (getNextId_pos ts) as Hone. rewrite getNextId_eq in *.
    unfold safe_integer.
    destruct (max_from_bounds ts 0) as (_ & _ & [Heq | Hin]).
    + rewrite Heq in *. unfold JS.MAX_SAFE_INTEGER. lia.
    + unfold ids in Hin. apply list_elem_of_fmap in Hin as (t0 & Heq & Ht0).
      rewrite Forall_forall in Hsafe. specialize (Hsafe t0 Ht0). lia.
  - rewrite (addTask_eq w ts (Some d) now Hts) by (by destruct d).
    cbv zeta. by rewrite Hw.
  - rewrite (deleteTask_eq _ (ts ++ [t]) id_ (getNextId ts)
               (stored_tasks_saved _ _) Hid).
    rewrite bool_decide_eq_true_2.
    2:{ unfold ids. rewrite fmap_app. apply elem_of_app. right. by left. }
    cbn [write_error].
    by rewrite (filter_added _ ts t (getNextId_fresh ts) eq_refl).
  - apply stored_tasks_saved.
  - intros d' now' Hd'. eexists.
    rewrite (addTask_eq _ ts (Some d') now' (stored_tasks_saved _ _))
      by (by destruct d').
    cbv zeta. reflexivity.
Qed.

Lemma add_then_delete_restores_witness :
  exists w1 w2,
    safe_integer 4 /\
    addTask (Some "water plants") "T6"
            (mkWorld (Json (of_tasks three_tasks)) None) =
      Some (tt, w1, [Log (Added 4)]) /\
    deleteTask (Some "4") w1 = Some (tt, w2, [Log (Deleted 4)]) /\
    stored_tasks w2 = Some three_tasks /\
    (forall d' now', d' <> "" ->
       exists w3, addTask (Some d') now' w2 = Some (tt, w3, [Log (Added 4)])).
Proof.
  apply (add_then_delete_restores (mkWorld (Json (of_tasks three_tasks)) None)
           three_tasks "water plants" "T6" (Some "4")).
  - reflexivity.
  - unfold JS.MAX_SAFE_INTEGER. repeat constructor; cbn; lia.
  - reflexivity.
  - discriminate.
  - reflexivity.
Defined.

(** X14.  After a delete that succeeded, no task has the deleted id: a
    second delete of the same id, and an update of it, print the not-found
    error and leave the world as the first delete left it. *)
Theorem delete_then_not_found (w : world) (ts : list Task) (id_ : JS.arg) (n : Z) :
  stored_tasks w = Some ts ->
  write_error w = None ->
  JS.parseInt id_ = Some n ->
  n ∈ ids ts ->
  exists w1 ts1,
    deleteTask id_ w = Some (tt, w1, load_output w ++ [Log (Deleted n)]) /\
    stored_tasks w1 = Some ts1 /\
    (n ∉ ids ts1) /\
    deleteTask id_ w1 = Some (tt, w1, [Error (TaskNotFound n)]) /\
    (forall d now, JS.truthy d = true ->
       updateTask id_ d now w1 = Some (tt, w1, [Error (TaskNotFound n)])).
Proof.
  intros Hts Hw Hid Hin.
  set (ts1 := filter (fun t => id t ≠ n) ts).
  assert (Hts1 : stored_tasks (mkWorld (Json (of_tasks ts1)) None) = Some ts1)
    by apply stored_tasks_saved.
  exists (mkWorld (Json (of_tasks ts1)) None), ts1.
  split; [|split; [done|split; [apply not_in_ids_filter|split]]].
  - rewrite (deleteTask_eq w ts id_ n Hts Hid).
    by rewrite (bool_decide_eq_true_2 _ Hin), Hw.
  - rewrite (deleteTask_eq _ ts1 id_ n Hts1 Hid).
    by rewrite (bool_decide_eq_false_2 _ (not_in_ids_filter n ts)).
  - intros d now Hd.
    rewrite (updateTask_eq _ ts1 _ _ _ n Hts1 Hid Hd).
    by rewrite (findIndex_None n ts1 (not_in_ids_filter n ts)).
Qed.

Lemma delete_then_not_found_witness :
  exists w1 ts1,
    deleteTask (Some "2") (mkWorld (Json (of_tasks three_tasks)) None) =
      Some (tt, w1, [Log (Deleted 2)]) /\
    stored_tasks w1 = Some ts1 /\
    (2 ∉ ids ts1) /\
    deleteTask (Some "2") w1 = Some (tt, w1, [Error (TaskNotFound 2)]) /\
    (forall d now, JS.truthy d = true ->
       updateTask (Some "2") d now w1 = Some (tt, w1, [Error (TaskNotFound 2)])).
Proof.
  apply (delete_then_not_found (mkWorld (Json (of_tasks three_tasks)) None)
           three_tasks (Some "2") 2).
  - reflexivity.
  - reflexivity.
  - reflexivity.
  - compute_done.
Defined.



(** X16.  A delete that finds the id removes every task with that id, also
    when several tasks share it, and nothing else: the collection saved has
    no task with the id, holds exactly the other tasks in their stored
    order, and is shorter than the collection loaded.  (The write
    succeeds.) *)
Theorem deleteTask_removes_every_match (w : world) (ts : list Task)
    (id_ : JS.arg) (n : Z) :
  stored_tasks w = Some ts ->
  write_error w = None ->
  JS.parseInt id_ = Some n ->
  n ∈ ids ts ->
  exists ts',
    deleteTask id_ w =
      Some (tt, mkWorld (Json (of_tasks ts')) None,
            load_output w ++ [Log (Deleted n)]) /\
    (n ∉ ids ts') /\
    (forall t, t ∈ ts' <-> t ∈ ts /\ id t <> n) /\
    ts' `sublist_of` ts /\
    (length ts' < length ts)%nat.
Proof.
  intros Hts Hw Hid Hin.
  exists (filter (fun t => id t ≠ n) ts).
  split; [|split; [apply not_in_ids_filter|split; [|split]]].
  - rewrite (deleteTask_eq w ts id_ n Hts Hid).
    by rewrite (bool_decide_eq_true_2 _ Hin), Hw.
  - intros t. rewrite list_elem_of_filter. tauto.
  - apply sublist_filter.
  - by apply filter_ne_present.
Qed.

Lemma deleteTask_removes_every_match_witness :
  exists ts',
    deleteTask (Some "7")
      (mkWorld (Json (of_tasks [mkTask 7 "buy milk" "todo" "T1" "T1";
                                mkTask 2 "call home" "todo" "T2" "T2";
                                mkTask 7 "pay rent" "done" "T3" "T4"])) None) =
      Some (tt, mkWorld (Json (of_tasks ts')) None, [Log (Deleted 7)]) /\
    (7 ∉ ids ts') /\
    (forall t, t ∈ ts' <->
               t ∈ [mkTask 7 "buy milk" "todo" "T1" "T1";
                    mkTask 2 "call home" "todo" "T2" "T2";
                    mkTask 7 "pay rent" "done" "T3" "T4"] /\ id t <> 7) /\
    ts' `sublist_of` [mkTask 7 "buy milk" "todo" "T1" "T1";
                      mkTask 2 "call home" "todo" "T2" "T2";
                      mkTask 7 "pay rent" "done" "T3" "T4"] /\
    (length ts' < 3)%nat.
Proof.
  apply (deleteTask_removes_every_match
           (mkWorld (Json (of_tasks [mkTask 7 "buy milk" "todo" "T1" "T1";
                                     mkTask 2 "call home" "todo" "T2" "T2";
                                     mkTask 7 "pay rent" "done" "T3" "T4"])) None)
           [mkTask 7 "buy milk" "todo" "T1" "T1";
            mkTask 2 "call home" "todo" "T2" "T2";
            mkTask 7 "pay rent" "done" "T3" "T4"]
           (Some "7") 7).
  - reflexivity.
  - reflexivity.
  - reflexivity.
  - compute_done.
Defined.

(** X17.  After an add that was saved, listing without a filter displays
    the tasks that were stored, in their order, followed by the new task;
    listing with the filter todo displays the stored todo tasks followed by
    the new task. *)
Theorem add_then_list (w : world) (ts : list Task) (d now : string) :
  stored_tasks w = Some ts ->
  write_error w = None ->
  d <> "" ->
  exists w1 newTask,
    newTask = mkTask (getNextId ts) d "todo" now now /\
    addTask (Some d) now w =
      Some (tt, w1, load_output w ++ [Log (Added (getNextId ts))]) /\
    (exists out, listTasks None w1 = Some (tt, w1, out) /\
                 displayed out = ts ++ [newTask]) /\
    (exists out, listTasks (Some "todo") w1 = Some (tt, w1, out) /\
                 displayed out =
                 filter (fun t => status t = "todo") ts ++ [newTask]).
Proof.
  intros Hts Hw Hd.
  set (t := mkTask (getNextId ts) d "todo" now now).
  assert (Hts1 : stored_tasks (mkWorld (Json (of_tasks (ts ++ [t]))) None)
                 = Some (ts ++ [t])) by apply stored_tasks_saved.
  exists (mkWorld (Json (of_tasks (ts ++ [t]))) None), t.
  split; [done|]. split; [|split].
  - rewrite (addTask_eq w ts (Some d) now Hts) by (by destruct d).
    cbv zeta. by rewrite Hw.
  - eexists. split; [apply (listTasks_eq _ _ _ Hts1)|].
    cbv zeta. rewrite bool_decide_eq_false_2 by (by destruct ts).
    cbn [app]. apply displayed_listing.
  - eexists. split; [apply (listTasks_eq _ _ _ Hts1)|].
    cbv zeta. rewrite bool_decide_eq_false_2 by (by destruct ts).
    change (JS.toLowerCase (JS.or_default (Some "todo") "all")) with "todo".
    rewrite (bool_decide_eq_false_2 ("todo" = "all")) by discriminate.
    rewrite (bool_decide_eq_true_2 ("todo" ∈ validStatuses)) by compute_done.
    rewrite filter_app.
    assert (filter (fun t0 => status t0 = "todo") [t] = [t]) as -> by done.
    rewrite bool_decide_eq_false_2
      by (by destruct (filter (fun t0 => status t0 = "todo") ts)).
    cbn [app]. apply displayed_listing.
Qed.

Lemma add_then_list_witness :
  exists w1 newTask,
    newTask = mkTask 4 "water plants" "todo" "T6" "T6" /\
    addTask (Some "water plants") "T6"
            (mkWorld (Json (of_tasks three_tasks)) None) =
      Some (tt, w1, [Log (Added 4)]) /\
    (exists out, listTasks None w1 = Some (tt, w1, out) /\
                 displayed out = three_tasks ++ [newTask]) /\
    (exists out, listTasks (Some "todo") w1 = Some (tt, w1, out) /\
                 displayed out =
                 filter (fun t => status t = "todo") three_tasks ++ [newTask]).
Proof.
  apply (add_then_list (mkWorld (Json (of_tasks three_tasks)) None)
           three_tasks "water plants" "T6").
  - reflexivity.
  - reflexivity.
  - discriminate.
Defined.

Example parseInt_no_break_space :
  JS.parseInt (Some (String (ascii_of_nat 194) (String (ascii_of_nat 160) "2")))
  = Some 2.
Proof. reflexivity. Qed.

Example parseInt_byte_order_mark_and_line_separator :
  JS.parseInt
    (Some (String (ascii_of_nat 239) (String (ascii_of_nat 187)
            (String (ascii_of_nat 191)
              (String (ascii_of_nat 226) (String (ascii_of_nat 128)
                (String (ascii_of_nat 168) " +7")))))))
  = Some 7.
Proof. reflexivity. Qed.

Example parseInt_other_two_byte_character :
  JS.parseInt (Some (String (ascii_of_nat 194) (String (ascii_of_nat 161) "2")))
  = None.
Proof. reflexivity. Qed.

Example parseInt_prefix_without_digits : JS.parseInt (Some "0x") = None.
Proof. reflexivity. Qed.
